(** * iqlFunctions.js: the memoizing cache and the Insight attribute resolver

    A shallow embedding of [src/iqlFunctions.js] and the properties of its
    expiring, size-bounded cache ([memoize]) and of the functions that
    resolve an attribute through the Insight REST API.

    Conventions of the embedding.
    - JavaScript numbers are modelled by [Z]: the timestamps of [Date.now()],
      the item limit and the time-to-live are integral; NaN, infinities and
      fractions are outside the model.
    - JavaScript strings are modelled by [string].
    - A thrown exception is the [Throw] case of [result].
    - What the host runtime provides and the source only calls
      ([JSON.stringify], [encodeURIComponent], the string-to-number
      conversion of [==], [UrlFetchApp.fetch] followed by [JSON.parse]) is a
      [Variable] of the section that uses it. *)

From Stdlib Require Import ZArith List String Ascii Bool Lia DecimalNat DecimalString.
Import ListNotations.

Local Open Scope string_scope.
Local Open Scope Z_scope.

(** ** JavaScript values *)

(** Data values: what [JSON.parse] produces, plus [undefined]. The fields
    of an object are its own properties, each key once. *)
#[warnings="-register-all"]
Inductive value : Type :=
| VUndefined
| VNull
| VBool (b : bool)
| VNum (n : Z)
| VStr (s : string)
| VArr (items : list value)
| VObj (fields : list (string * value)).

Inductive error : Type :=
| TypeError
| SyntaxError
| HostError (msg : string).

Inductive result (A : Type) : Type :=
| Ok (a : A)
| Throw (e : error).

Arguments Ok {A} a.
Arguments Throw {A} e.

Definition result_bind {A B : Type} (r : result A) (k : A -> result B) : result B :=
  match r with
  | Ok a => k a
  | Throw e => Throw e
  end.

Notation "'try' x <- r ; k" := (result_bind r (fun x => k))
  (at level 10, x name, r at level 100, k at level 200).

(** An argument of a call: a data value or a function object. *)
Inductive arg : Type :=
| AVal (v : value)
| AFun (f : list value -> result value).

(** [typeof x]. *)
Definition typeof (x : arg) : string :=
  match x with
  | AFun _ => "function"
  | AVal VUndefined => "undefined"
  | AVal VNull => "object"
  | AVal (VBool _) => "boolean"
  | AVal (VNum _) => "number"
  | AVal (VStr _) => "string"
  | AVal (VArr _) => "object"
  | AVal (VObj _) => "object"
  end.

(** ToBoolean: the values [||] and [if] treat as true. *)
Definition truthy (v : value) : bool :=
  match v with
  | VUndefined => false
  | VNull => false
  | VBool b => b
  | VNum n => negb (n =? 0)
  | VStr s => negb (String.eqb s "")
  | VArr _ => true
  | VObj _ => true
  end.

Definition nullish (v : value) : bool :=
  match v with
  | VUndefined => true
  | VNull => true
  | _ => false
  end.

Definition string_of_Z (n : Z) : string := NilZero.string_of_int (Z.to_int n).

Definition string_of_nat (n : nat) : string := NilZero.string_of_uint (Nat.to_uint n).

(** ToString, as applied by [+] with a string operand and by [join]. *)
Fixpoint ToString (v : value) : string :=
  match v with
  | VUndefined => "undefined"
  | VNull => "null"
  | VBool true => "true"
  | VBool false => "false"
  | VNum n => string_of_Z n
  | VStr s => s
  | VArr items =>
      String.concat ","
        (map (fun x => match x with
                       | VUndefined => ""
                       | VNull => ""
                       | _ => ToString x
                       end) items)
  | VObj _ => "[object Object]"
  end.

(** [Array.prototype.join(sep)]. *)
Definition join (sep : string) (items : list value) : string :=
  String.concat sep (map (fun x => if nullish x then "" else ToString x) items).

(** The one-character strings of [s], in order. *)
Fixpoint chars (s : string) : list value :=
  match s with
  | EmptyString => []
  | String c rest => VStr (String c EmptyString) :: chars rest
  end.

Fixpoint lookup (k : string) (fields : list (string * value)) : option value :=
  match fields with
  | [] => None
  | (k', v) :: rest => if String.eqb k k' then Some v else lookup k rest
  end.

(** The array index a property key denotes, when it is one of [0 .. n-1]. *)
Definition array_index (k : string) (n : nat) : option nat :=
  find (fun i => String.eqb (string_of_nat i) k) (seq 0 n).

(** [v[k]] on own properties. The source only asks for the names it reads
    from the API responses and for keys enumerated by [for .. in], none of
    which is an inherited property. *)
Definition get_property (v : value) (k : string) : result value :=
  match v with
  | VUndefined => Throw TypeError
  | VNull => Throw TypeError
  | VBool _ => Ok VUndefined
  | VNum _ => Ok VUndefined
  | VStr s =>
      if String.eqb k "length" then Ok (VNum (Z.of_nat (String.length s)))
      else match array_index k (String.length s) with
           | Some i => Ok (nth i (chars s) VUndefined)
           | None => Ok VUndefined
           end
  | VArr items =>
      if String.eqb k "length" then Ok (VNum (Z.of_nat (List.length items)))
      else match array_index k (List.length items) with
           | Some i => Ok (nth i items VUndefined)
           | None => Ok VUndefined
           end
  | VObj fields =>
      match lookup k fields with
      | Some x => Ok x
      | None => Ok VUndefined
      end
  end.

(** [k in v]: a TypeError when [v] is not an object. *)
Definition has_property (k : string) (v : value) : result bool :=
  match v with
  | VArr items =>
      Ok (String.eqb k "length"
          || match array_index k (List.length items) with
             | Some _ => true
             | None => false
             end)
  | VObj fields =>
      Ok match lookup k fields with
         | Some _ => true
         | None => false
         end
  | _ => Throw TypeError
  end.

(** The values a [for .. of] loop visits: arrays and strings are iterable,
    anything else is a TypeError. *)
Definition iterate (v : value) : result (list value) :=
  match v with
  | VArr items => Ok items
  | VStr s => Ok (chars s)
  | _ => Throw TypeError
  end.

(** The keys a [for .. in] loop visits; a primitive has none, and [null]
    and [undefined] are skipped without an error. The fields of an object
    are listed in the order JavaScript enumerates them. *)
Definition for_in_keys (v : value) : list string :=
  match v with
  | VArr items => map string_of_nat (seq 0 (List.length items))
  | VStr s => map string_of_nat (seq 0 (String.length s))
  | VObj fields => map fst fields
  | _ => []
  end.

Section LooseEquality.

(** StringToNumber of the runtime: [None] when the string denotes NaN or
    a number that is not an integer. *)
Variable StringToNumber : string -> option Z.

Definition ToPrimitive (v : value) : value :=
  match v with
  | VArr _ => VStr (ToString v)
  | VObj _ => VStr (ToString v)
  | _ => v
  end.

Definition ToNumber (v : value) : option Z :=
  match v with
  | VNum n => Some n
  | VBool true => Some 1
  | VBool false => Some 0
  | VStr s => StringToNumber s
  | _ => None
  end.

(** [a == b] on primitives that are neither [null] nor [undefined]. *)
Definition primitive_eq (a b : value) : bool :=
  match a, b with
  | VStr s, VStr t => String.eqb s t
  | _, _ =>
      match ToNumber a, ToNumber b with
      | Some m, Some n => m =? n
      | _, _ => false
      end
  end.

(** [a == b]. Two objects are equal only when they are the same object;
    every comparison of the source has its operands from different
    sources (a caller's argument and a freshly parsed response, or two
    parsed responses), so two objects never are. *)
Definition loose_eq (a b : value) : bool :=
  match a, b with
  | (VUndefined | VNull), (VUndefined | VNull) => true
  | (VUndefined | VNull), _ => false
  | _, (VUndefined | VNull) => false
  | (VArr _ | VObj _), (VArr _ | VObj _) => false
  | _, _ => primitive_eq (ToPrimitive a) (ToPrimitive b)
  end.

End LooseEquality.

(** ** The cache of [memoize] *)

(** A cached item [{ value, expire }]; [expire] holds the time of insertion. *)
Record entry : Type := mkEntry { value_of : value; expire_of : Z }.

(** A JavaScript [Map] from keys to items, in insertion order. *)
Definition Map : Type := list (string * entry).

Fixpoint Map_get (k : string) (m : Map) : option entry :=
  match m with
  | [] => None
  | (k', e) :: rest => if String.eqb k k' then Some e else Map_get k rest
  end.

(** [Map.prototype.set]: an existing key keeps its position. *)
Fixpoint Map_set (k : string) (e : entry) (m : Map) : Map :=
  match m with
  | [] => [(k, e)]
  | (k', e') :: rest =>
      if String.eqb k k' then (k, e) :: rest else (k', e') :: Map_set k e rest
  end.

Fixpoint Map_delete (k : string) (m : Map) : Map :=
  match m with
  | [] => []
  | (k', e') :: rest =>
      if String.eqb k k' then rest else (k', e') :: Map_delete k rest
  end.

Definition Map_size (m : Map) : Z := Z.of_nat (List.length m).

(** [new Map(pairs)]. *)
Definition Map_of (pairs : list (string * entry)) : Map :=
  fold_left (fun m p => Map_set (fst p) (snd p) m) pairs [].

(** What the wrapper does to the outside, in order. *)
Inductive event : Type :=
| CacheServiceGet
| CacheServicePut (blob : Map)
| LoggerLog (msg : string)
| Apply (args : list value).

(** The variables of one [memoize] closure, the blob that the document
    cache holds under the key ["_cache"] ([None] when there is none), and
    the events so far. The blob is [JSON.stringify([..._cache.entries()])];
    it is modelled by the list of pairs that it encodes. *)
Record state : Type := mkState {
  _limit : Z;
  _time : Z;
  _cache : Map;
  cache_service : option Map;
  trace : list event
}.

Definition with_limit (n : Z) (s : state) : state :=
  mkState n (_time s) (_cache s) (cache_service s) (trace s).

Definition with_time (t : Z) (s : state) : state :=
  mkState (_limit s) t (_cache s) (cache_service s) (trace s).

Definition with_cache (m : Map) (s : state) : state :=
  mkState (_limit s) (_time s) m (cache_service s) (trace s).

Definition with_service (b : option Map) (s : state) : state :=
  mkState (_limit s) (_time s) (_cache s) b (trace s).

Definition emit (ev : event) (s : state) : state :=
  mkState (_limit s) (_time s) (_cache s) (cache_service s) (trace s ++ [ev]).

(** Computations of the closure: a result or an exception, and the state
    they leave. *)
Definition M (A : Type) : Type := state -> result A * state.

Definition ret {A : Type} (a : A) : M A := fun s => (Ok a, s).

Definition throw {A : Type} (e : error) : M A := fun s => (Throw e, s).

Definition bind {A B : Type} (m : M A) (k : A -> M B) : M B :=
  fun s =>
    match m s with
    | (Ok a, s') => k a s'
    | (Throw e, s') => (Throw e, s')
    end.

Definition modify (f : state -> state) : M unit := fun s => (Ok tt, f s).

Notation "'do' x <- m ; k" := (bind m (fun x => k))
  (at level 10, x name, m at level 100, k at level 200).

Notation "m ;; k" := (bind m (fun _ => k))
  (at level 61, right associativity).

(** [cacheServicePut]: the whole cache replaces the blob. *)
Definition cacheServicePut : M unit :=
  fun s => (Ok tt, emit (CacheServicePut (_cache s)) (with_service (Some (_cache s)) s)).

(** [remove(key)] (lines 99-103). *)
Definition remove (key : string) : M unit :=
  modify (fun s => with_cache (Map_delete key (_cache s)) s) ;;
  cacheServicePut.

(** [get(key)] (lines 85-96); [now] is the reading of [Date.now()]. *)
Definition get (key : string) (now : Z) : M value :=
  fun s =>
    match Map_get key (_cache s) with
    | Some entry =>
        if expire_of entry + _time s >? now
        then (Ok (value_of entry), emit (LoggerLog "Using memoized function.") s)
        else (remove key ;; ret VUndefined) s
    | None => (Ok VUndefined, s)
    end.

(** The loop of [set] (lines 72-78). [entries] is what the iterator
    [_cache.entries()] has left to yield: the loop deletes only the entry
    it has just been given, so the entries ahead are those of the cache
    when the iterator was made. [_cache.size] and [_time] are read anew in
    each round. *)
Fixpoint set_loop (entries : Map) (date : Z) : M unit :=
  match entries with
  | [] => ret tt
  | (k, e) :: rest =>
      fun s =>
        if (Map_size (_cache s) >? _limit s) || (expire_of e + _time s <? date)
        then (remove k ;; set_loop rest date) s
        else (Ok tt, s)
  end.

(** [set(key, value)] (lines 68-82); [date] and [stamp] are the two
    readings of [Date.now()], in order. *)
Definition set (key : string) (v : value) (date stamp : Z) : M value :=
  fun s =>
    (set_loop (_cache s) date ;;
     modify (fun s' => with_cache (Map_set key (mkEntry v stamp) (_cache s')) s') ;;
     cacheServicePut ;;
     ret v) s.

(** [memoized.limit] (lines 46-51). *)
Definition limit (x : arg) : M unit :=
  match x with
  | AVal (VNum n) => modify (with_limit n)
  | _ => throw TypeError
  end.

(** [memoized.expire] (lines 54-59). *)
Definition expire (x : arg) : M unit :=
  match x with
  | AVal (VNum t) => modify (with_time t)
  | _ => throw TypeError
  end.

(** [memoized.flush] (lines 62-65). *)
Definition flush : M unit := modify (with_cache []).

Section Memoized.

(** [JSON.stringify] on an argument list. *)
Variable JSON_stringify : list value -> string.

(** The wrapped function. *)
Variable fn : list value -> result value.

Definition apply_fn (args : list value) : M value :=
  fun s => (fn args, emit (Apply args) s).

(** [memoized(...args)] (lines 40-43): [get(key) || set(key, fn(args))].
    [t_get] is the clock reading inside [get]; [t_date] and [t_stamp] are
    the two inside [set]. *)
Definition memoized (args : list value) (t_get t_date t_stamp : Z) : M value :=
  let key := JSON_stringify args in
  do hit <- get key t_get ;
  if truthy hit then ret hit
  else do v <- apply_fn args ; set key v t_date t_stamp.

End Memoized.

(** The closure as [memoize] sets it up (lines 16-28): the default item
    limit and time-to-live, and the cache rebuilt from the stored blob. *)
Definition initial_state (blob : option Map) : state :=
  mkState 1000 (1000 * 60 * 60 * 24)
          (match blob with
           | Some pairs => Map_of pairs
           | None => []
           end)
          blob
          [CacheServiceGet].

(** [memoize(fn)] (lines 8-108): the closure reads the document cache once,
    then returns the wrapper when [fn] is a function and throws otherwise.
    [blob] is what the document cache holds at that time. *)
Definition memoize (f : arg) (blob : option Map)
  : result (list value -> result value) * state :=
  match f with
  | AFun fn => (Ok fn, initial_state blob)
  | AVal _ => (Throw TypeError, initial_state blob)
  end.

(** ** The Insight client and the attribute resolver *)

Definition base_url : string := "".

Section Insight.

(** [UrlFetchApp.fetch(url, options).getContentText()] passed to
    [JSON.parse]: the parsed body, or the exception of either step. *)
Variable fetch_json : string -> result value.

(** [encodeURIComponent], total on the strings of the model. *)
Variable encodeURIComponent : string -> string.

(** StringToNumber of the runtime, as in [loose_eq]. *)
Variable StringToNumber : string -> option Z.

(** [insightRequest(path)] (lines 115-125). *)
Definition insightRequest (path : string) : result value :=
  fetch_json (base_url ++ path).

(** [insightObjectsIql(iql_query)] (lines 133-138). *)
Definition insightObjectsIql (iql_query : value) : result value :=
  insightRequest ("iql/objects" ++ "?iql=" ++ encodeURIComponent (ToString iql_query)).

(** The [for .. of] loop of [getObjectTypeIdFromName] (lines 149-155). *)
Fixpoint find_object_type (name : value) (object_types : list value) : result value :=
  match object_types with
  | [] => Ok VNull
  | object_type :: rest =>
      try named <- has_property "name" object_type ;
      if named then
        try n <- get_property object_type "name" ;
        if loose_eq StringToNumber name n
        then get_property object_type "id"
        else find_object_type name rest
      else find_object_type name rest
  end.

(** [getObjectTypeIdFromName(name, object_schema_id)] (lines 147-157). *)
Definition getObjectTypeIdFromName (name object_schema_id : value) : result value :=
  try data <- insightRequest ("objectschema/" ++ ToString object_schema_id ++ "/objecttypes") ;
  try object_types <- iterate data ;
  find_object_type name object_types.

(** The [for .. in] loop of [getObjectTypeAttributeId] (lines 168-172). *)
Fixpoint find_attribute (name data : value) (keys : list string) : result value :=
  match keys with
  | [] => Ok VNull
  | item :: rest =>
      try element <- get_property data item ;
      try n <- get_property element "name" ;
      if loose_eq StringToNumber name n
      then get_property element "id"
      else find_attribute name data rest
  end.

(** [getObjectTypeAttributeId(name, object_name, object_schema_id)]
    (lines 165-174). *)
Definition getObjectTypeAttributeId (name object_name object_schema_id : value)
  : result value :=
  try object_type_id <- getObjectTypeIdFromName object_name object_schema_id ;
  try data <- insightRequest ("objecttype/" ++ ToString object_type_id ++ "/attributes") ;
  find_attribute name data (for_in_keys data).

(** The inner loop of [getLazyIQL] (lines 191-198); [results] is the
    array being filled. *)
Fixpoint scan_attributes (objectTypeAttributeId : value) (attributes results : list value)
  : result (list value) :=
  match attributes with
  | [] => Ok results
  | attribute :: rest =>
      try present <- has_property "objectTypeAttributeId" attribute ;
      if present then
        try id <- get_property attribute "objectTypeAttributeId" ;
        if loose_eq StringToNumber objectTypeAttributeId id then
          try values <- get_property attribute "objectAttributeValues" ;
          try first <- get_property values "0" ;
          try shown <- get_property first "displayValue" ;
          scan_attributes objectTypeAttributeId rest (results ++ [shown])
        else scan_attributes objectTypeAttributeId rest results
      else scan_attributes objectTypeAttributeId rest results
  end.

(** The outer loop of [getLazyIQL] (lines 190-199). *)
Fixpoint scan_objects (objectTypeAttributeId : value) (objects results : list value)
  : result (list value) :=
  match objects with
  | [] => Ok results
  | object :: rest =>
      try attrs <- get_property object "attributes" ;
      try attributes <- iterate attrs ;
      try results' <- scan_attributes objectTypeAttributeId attributes results ;
      scan_objects objectTypeAttributeId rest results'
  end.

(** [getLazyIQL(iql_search, attribute, object_name, object_schema_id)]
    (lines 183-201). The [Logger.log] of line 185 is left out: it cannot
    throw and nothing reads the log. *)
Definition getLazyIQL (iql_search attribute object_name object_schema_id : value)
  : result (list value) :=
  try objectTypeAttributeId <-
    getObjectTypeAttributeId attribute object_name object_schema_id ;
  try data <- insightObjectsIql iql_search ;
  try object_entries <- get_property data "objectEntries" ;
  try objects <- iterate object_entries ;
  scan_objects objectTypeAttributeId objects [].

(** [_LAZYIQL] (lines 207-209): [getLazyIQL] is called with two
    arguments, so its [object_name] and [object_schema_id] are
    [undefined]. *)
Definition _LAZYIQL (iql_search attribute object_name object_schema_id : value)
  : result value :=
  try results <- getLazyIQL iql_search attribute VUndefined VUndefined ;
  Ok (nth 0 results VUndefined).

(** [_LAZYIQL_LIST] (lines 212-214). *)
Definition _LAZYIQL_LIST (iql_search attribute object_name object_schema_id : value)
  : result value :=
  try results <- getLazyIQL iql_search attribute VUndefined VUndefined ;
  Ok (VStr (join ";" results)).

(** A function of four parameters applied to an argument list: a missing
    argument is [undefined], further ones are ignored. *)
Definition positional (f : value -> value -> value -> value -> result value)
  (args : list value) : result value :=
  f (nth 0 args VUndefined) (nth 1 args VUndefined)
    (nth 2 args VUndefined) (nth 3 args VUndefined).

Variable JSON_stringify : list value -> string.

(** [MEMOIZED_IQL] and [MEMOIZED_IQL_LIST] (lines 219-220), as the calls
    of the wrappers that [memoize] returns. *)
Definition MEMOIZED_IQL : list value -> Z -> Z -> Z -> M value :=
  memoized JSON_stringify (positional _LAZYIQL).

Definition MEMOIZED_IQL_LIST : list value -> Z -> Z -> Z -> M value :=
  memoized JSON_stringify (positional _LAZYIQL_LIST).

(** [LAZYIQL] (lines 229-231), on the closure of [MEMOIZED_IQL]. *)
Definition LAZYIQL (iql_search attribute object_name object_schema_id : value)
  : Z -> Z -> Z -> M value :=
  MEMOIZED_IQL [iql_search; attribute; object_name; object_schema_id].

(** [LAZYIQL_LIST] (lines 240-242), on the closure of [MEMOIZED_IQL_LIST]. *)
Definition LAZYIQL_LIST (iql_search attribute object_name object_schema_id : value)
  : Z -> Z -> Z -> M value :=
  MEMOIZED_IQL_LIST [iql_search; attribute; object_name; object_schema_id].

End Insight.

(** ** Observations on traces *)

(** The events a computation added, given the states before and after. *)
Definition new_events (before after : state) : list event :=
  skipn (List.length (trace before)) (trace after).

Definition is_apply (ev : event) : bool :=
  match ev with
  | Apply _ => true
  | _ => false
  end.

Definition is_put (ev : event) : bool :=
  match ev with
  | CacheServicePut _ => true
  | _ => false
  end.

(** How often the wrapped function was invoked. *)
Definition invocations (evs : list event) : nat :=
  List.length (filter is_apply evs).

(** The same call made once for each triple of clock readings. *)
Fixpoint repeat_call (call : Z -> Z -> Z -> M value) (times : list (Z * Z * Z))
  : M (list value) :=
  match times with
  | [] => ret []
  | (t_get, t_date, t_stamp) :: rest =>
      do v <- call t_get t_date t_stamp ;
      do vs <- repeat_call call rest ;
      ret (v :: vs)
  end.

(** The cache holds nothing for [key] that [||] would accept. *)
Definition no_truthy_entry (key : string) (s : state) : Prop :=
  match Map_get key (_cache s) with
  | Some e => truthy (value_of e) = false
  | None => True
  end.

(** The keys of a [Map] are distinct. *)
Definition distinct_keys (m : Map) : Prop := NoDup (map fst m).

(** ** Instances for the examples *)

(** A serializer of argument lists, injective on the lists of the examples. *)
Definition sample_stringify (args : list value) : string :=
  "[" ++ join "," args ++ "]".

(** Decimal integer literals, and the empty string as zero. *)
Definition sample_StringToNumber (s : string) : option Z :=
  if String.eqb s "" then Some 0
  else option_map Z.of_int (NilZero.int_of_string s).

(** The identity, which is [encodeURIComponent] on unreserved characters. *)
Definition sample_encodeURIComponent (s : string) : string := s.

Definition object_types_10 : value :=
  VArr [VObj [("id", VNum 1); ("name", VStr "Laptop")];
        VObj [("id", VNum 2); ("name", VStr "Server")]].

Definition attributes_2 : value :=
  VArr [VObj [("id", VNum 7); ("name", VStr "Name")];
        VObj [("id", VNum 8); ("name", VStr "Owner")]].

Definition search_servers : value :=
  VObj [("objectEntries",
         VArr [VObj [("attributes",
                      VArr [VObj [("objectTypeAttributeId", VNum 7);
                                  ("objectAttributeValues",
                                   VArr [VObj [("displayValue", VStr "srv-1")]])];
                            VObj [("objectTypeAttributeId", VNum 8);
                                  ("objectAttributeValues",
                                   VArr [VObj [("displayValue", VStr "Alice")]])]])]])].

(** A search result with a matching attribute that has no value. *)
Definition search_unowned : value :=
  VObj [("objectEntries",
         VArr [VObj [("attributes",
                      VArr [VObj [("objectTypeAttributeId", VNum 8);
                                  ("objectAttributeValues", VArr [])]])]])].

Definition error_body : value :=
  VObj [("errorMessages", VArr [VStr "Not found"]); ("errors", VObj [])].

(** A server with one schema ["10"], the object type ["Server"] in it with
    the attributes ["Name"] and ["Owner"], and two searches; any other
    path is answered by an error body. *)
Definition sample_server (url : string) : result value :=
  if String.eqb url "objectschema/10/objecttypes" then Ok object_types_10
  else if String.eqb url "objecttype/2/attributes" then Ok attributes_2
  else if String.eqb url "iql/objects?iql=Server" then Ok search_servers
  else if String.eqb url "iql/objects?iql=Unowned" then Ok search_unowned
  else Ok error_body.

(** A wrapped function whose result is always the empty string. *)
Definition always_empty (args : list value) : result value := Ok (VStr "").

(** A wrapped function that returns its first argument. *)
Definition first_argument (args : list value) : result value :=
  Ok (nth 0 args VUndefined).

Definition sample_entry : entry := mkEntry (VStr "Alice") 0.

Definition alice_key : string := sample_stringify [VStr "Alice"].

Definition bob_key : string := sample_stringify [VStr "Bob"].

(** A closure with a time-to-live of 10 ms whose cache holds one entry,
    inserted at time 0 and written to the document cache. *)
Definition stale_state : state :=
  mkState 1000 10 [(alice_key, sample_entry)] (Some [(alice_key, sample_entry)])
          [CacheServiceGet].

(** A closure made while the document cache was empty, after which another
    closure has written an entry to the document cache. *)
Definition behind_state : state :=
  mkState 1000 (1000 * 60 * 60 * 24) [] (Some [(alice_key, sample_entry)])
          [CacheServiceGet].

(** [sample_server], except that it answers the requests [_LAZYIQL] makes
    for the schema [undefined] with empty lists. *)
Definition lenient_server (url : string) : result value :=
  if String.eqb url "objectschema/undefined/objecttypes" then Ok (VArr [])
  else if String.eqb url "objecttype/null/attributes" then Ok (VArr [])
  else sample_server url.

(** ** Sequences of calls and what the resolver collects *)

(** Calls of one wrapper made one after the other, each with its arguments
    and clock readings; an exception ends its own call only. *)
Fixpoint call_sequence (call : list value -> Z -> Z -> Z -> M value)
         (calls : list (list value * (Z * Z * Z))) (s : state) : state :=
  match calls with
  | [] => s
  | (args, (t_get, t_date, t_stamp)) :: rest =>
      call_sequence call rest (snd (call args t_get t_date t_stamp s))
  end.

(** What line 195 reads from an attribute whose first value is an object:
    its [displayValue], or [undefined] when it has none. *)
Definition first_display_value (fields : list (string * value)) : value :=
  match lookup "objectAttributeValues" fields with
  | Some (VArr (VObj first :: _)) =>
      match lookup "displayValue" first with
      | Some shown => shown
      | None => VUndefined
      end
  | _ => VUndefined
  end.

(** The display values of the attributes that carry the identifier [id],
    in the order of the attributes: a description of the result of the
    loops of [getLazyIQL], to compare them with. *)
Definition matching_values (StringToNumber : string -> option Z) (id : value)
           (attributes : list value) : list value :=
  flat_map (fun a =>
              match a with
              | VObj fields =>
                  match lookup "objectTypeAttributeId" fields with
                  | Some x =>
                      if loose_eq StringToNumber id x
                      then [first_display_value fields]
                      else []
                  | None => []
                  end
              | _ => []
              end) attributes.

(** A search result with two objects. *)
Definition search_all : value :=
  VObj [("objectEntries",
         VArr [VObj [("attributes",
                      VArr [VObj [("objectTypeAttributeId", VNum 7);
                                  ("objectAttributeValues",
                                   VArr [VObj [("displayValue", VStr "srv-1")]])]])];
               VObj [("attributes",
                      VArr [VObj [("objectTypeAttributeId", VNum 7);
                                  ("objectAttributeValues",
                                   VArr [VObj [("displayValue", VStr "srv-2")]])]])]])].

(** [sample_server], except that the requests [_LAZYIQL] makes for the
    schema [undefined] are answered: no object types, and the attributes
    of the sample type under the type [null]. *)
Definition confused_server (url : string) : result value :=
  if String.eqb url "objectschema/undefined/objecttypes" then Ok (VArr [])
  else if String.eqb url "objecttype/null/attributes" then Ok attributes_2
  else if String.eqb url "iql/objects?iql=All" then Ok search_all
  else sample_server url.

(** A serializer that writes [null] for an element that is [undefined] or
    [null], as [JSON.stringify] does for the elements of an array. *)
Definition stringify_with_nulls (args : list value) : string :=
  "[" ++ String.concat "," (map (fun x => if nullish x then "null" else ToString x) args)
      ++ "]".

(** A server whose first answer is an exception of the host. *)
Definition failing_server (url : string) : result value :=
  Throw (HostError "Address unavailable").

Definition carol_key : string := sample_stringify [VStr "Carol"].

(** A closure with a limit of 2 and a time-to-live of 100 ms that holds
    three entries, inserted at the times 0, 1 and 2. *)
Definition crowded_state : state :=
  mkState 2 100
          [(alice_key, mkEntry (VStr "Alice") 0);
           (bob_key, mkEntry (VStr "Bob") 1);
           (carol_key, mkEntry (VStr "Carol") 2)]
          None
          [CacheServiceGet].

(** ** The scenarios of the sample server *)

Local Open Scope list_scope.

Example sample_getLazyIQL :
  getLazyIQL sample_server sample_encodeURIComponent sample_StringToNumber
    (VStr "Server") (VStr "Owner") (VStr "Server") (VStr "10") = Ok [VStr "Alice"].
Proof. vm_compute. reflexivity. Qed.

Example sample_getObjectTypeIdFromName :
  getObjectTypeIdFromName sample_server sample_StringToNumber (VStr "Server") (VStr "10")
  = Ok (VNum 2).
Proof. vm_compute. reflexivity. Qed.

(** ** Properties of the [Map] operations *)

Lemma Map_get_set_same (k : string) (e : entry) (m : Map) :
  Map_get k (Map_set k e m) = Some e.
Proof.
  induction m as [|[k' e'] rest IH]; simpl.
  - now rewrite String.eqb_refl.
  - destruct (String.eqb k k') eqn:E; simpl.
    + now rewrite String.eqb_refl.
    + now rewrite E.
Qed.

Lemma Map_get_set_other (k k' : string) (e : entry) (m : Map) :
  k <> k' -> Map_get k (Map_set k' e m) = Map_get k m.
Proof.
  intros Hne. induction m as [|[k0 e0] rest IH]; simpl.
  - destruct (String.eqb k k') eqn:E; [apply String.eqb_eq in E; contradiction | reflexivity].
  - destruct (String.eqb k' k0) eqn:E0; simpl.
    + apply String.eqb_eq in E0. subst k0.
      destruct (String.eqb k k') eqn:E; [apply String.eqb_eq in E; contradiction | reflexivity].
    + destruct (String.eqb k k0); [reflexivity | exact IH].
Qed.

Lemma Map_set_length (k : string) (e : entry) (m : Map) :
  (List.length (Map_set k e m) <= S (List.length m))%nat.
Proof.
  induction m as [|[k' e'] rest IH]; simpl.
  - lia.
  - destruct (String.eqb k k'); simpl; lia.
Qed.

Lemma Map_set_fresh (k : string) (e : entry) (m : Map) :
  Map_get k m = None -> Map_set k e m = m ++ [(k, e)].
Proof.
  induction m as [|[k' e'] rest IH]; simpl; intros H.
  - reflexivity.
  - destruct (String.eqb k k'); [discriminate | now rewrite IH].
Qed.

Lemma Map_get_delete_same (k : string) (m : Map) :
  distinct_keys m -> Map_get k (Map_delete k m) = None.
Proof.
  unfold distinct_keys.
  induction m as [|[k' e'] rest IH]; simpl; intros Hnd.
  - reflexivity.
  - inversion Hnd as [|? ? Hnotin Hnd']; subst.
    destruct (String.eqb k k') eqn:E; simpl.
    + apply String.eqb_eq in E. subst k'.
      clear IH Hnd Hnd'. induction rest as [|[k1 e1] rest IH]; simpl; [reflexivity|].
      destruct (String.eqb k k1) eqn:E1.
      * apply String.eqb_eq in E1. subst k1. exfalso. apply Hnotin. now left.
      * apply IH. intros Hin. apply Hnotin. now right.
    + rewrite E. now apply IH.
Qed.

Lemma Map_get_In (k : string) (e : entry) (m : Map) :
  Map_get k m = Some e -> In (k, e) m.
Proof.
  induction m as [|[k' e'] rest IH]; simpl; intros H.
  - discriminate.
  - destruct (String.eqb k k') eqn:E.
    + apply String.eqb_eq in E. injection H as ->. subst. now left.
    + right. now apply IH.
Qed.

(** ** Properties of the closure's operations *)

Lemma new_events_app (s s' : state) (evs : list event) :
  trace s' = trace s ++ evs -> new_events s s' = evs.
Proof.
  intros H. unfold new_events. rewrite H.
  rewrite skipn_app, skipn_all, Nat.sub_diag. reflexivity.
Qed.

Lemma remove_eq (key : string) (s : state) :
  remove key s =
  (Ok tt,
   mkState (_limit s) (_time s) (Map_delete key (_cache s))
           (Some (Map_delete key (_cache s)))
           (trace s ++ [CacheServicePut (Map_delete key (_cache s))])).
Proof. reflexivity. Qed.

(** The loop of [set] deletes a prefix of the cache, oldest first, writing
    the blob after each deletion, and stops with the cache empty or with an
    oldest entry that is within the limit and not expired. *)
Lemma set_loop_eq (date : Z) (entries : Map) :
  forall s, _cache s = entries ->
  exists dropped kept evs,
    entries = dropped ++ kept /\
    set_loop entries date s =
      (Ok tt, mkState (_limit s) (_time s) kept
                      (match evs with [] => cache_service s | _ => Some kept end)
                      (trace s ++ evs)) /\
    forallb is_put evs = true /\
    List.length evs = List.length dropped /\
    match kept with
    | [] => True
    | (k, e) :: _ => Map_size kept <= _limit s /\ date <= expire_of e + _time s
    end.
Proof.
  induction entries as [|[k e] rest IH]; intros s Hs.
  - exists [], [], []. simpl. rewrite app_nil_r.
    destruct s; simpl in *; subst. repeat split.
  - simpl.
    destruct ((Map_size (_cache s) >? _limit s) || (expire_of e + _time s <? date)) eqn:C.
    + unfold bind at 1. rewrite remove_eq.
      rewrite Hs. simpl Map_delete. rewrite String.eqb_refl.
      set (s1 := mkState _ _ rest _ _).
      destruct (IH s1 eq_refl) as (dropped & kept & evs & Hsplit & Hrun & Hputs & Hlen & Hstop).
      exists ((k, e) :: dropped), kept, (CacheServicePut rest :: evs).
      subst rest. split; [reflexivity|]. split.
      * rewrite Hrun. simpl. rewrite <- app_assoc. simpl.
        f_equal. f_equal. destruct evs as [|ev evs']; [|reflexivity].
        destruct dropped; [reflexivity | discriminate].
      * split; [exact Hputs|]. split; [simpl; now rewrite Hlen | exact Hstop].
    + exists [], ((k, e) :: rest), []. simpl. rewrite app_nil_r.
      apply orb_false_iff in C. destruct C as [C1 C2].
      rewrite Hs in C1.
      split; [reflexivity|]. split; [destruct s; simpl in *; now subst|].
      repeat split; lia.
Qed.

(** [set] after its loop: the new entry is put under [key], the blob is
    written, and the value is returned. *)
Lemma set_eq (key : string) (v : value) (date stamp : Z) (s : state) :
  exists dropped kept evs,
    _cache s = dropped ++ kept /\
    set key v date stamp s =
      (Ok v, mkState (_limit s) (_time s)
                     (Map_set key (mkEntry v stamp) kept)
                     (Some (Map_set key (mkEntry v stamp) kept))
                     (trace s ++ evs ++ [CacheServicePut (Map_set key (mkEntry v stamp) kept)])) /\
    forallb is_put evs = true /\
    List.length evs = List.length dropped /\
    match kept with
    | [] => True
    | (k, e) :: _ => Map_size kept <= _limit s /\ date <= expire_of e + _time s
    end.
Proof.
  destruct (set_loop_eq date (_cache s) s eq_refl)
    as (dropped & kept & evs & Hsplit & Hrun & Hputs & Hlen & Hstop).
  exists dropped, kept, evs. split; [exact Hsplit|]. split.
  - unfold set, bind. rewrite Hrun. simpl. unfold emit, with_service, with_cache. simpl.
    now rewrite <- app_assoc.
  - auto.
Qed.

Lemma puts_are_not_applies (evs : list event) :
  forallb is_put evs = true -> filter is_apply evs = [].
Proof.
  induction evs as [|ev evs IH]; simpl; intros H; [reflexivity|].
  apply andb_true_iff in H. destruct H as [H1 H2].
  destruct ev; try discriminate. simpl. now apply IH.
Qed.

Lemma puts_are_not_gets (evs : list event) :
  forallb is_put evs = true -> ~ In CacheServiceGet evs.
Proof.
  induction evs as [|ev evs IH]; simpl; intros H Hin; [exact Hin|].
  apply andb_true_iff in H. destruct H as [H1 H2].
  destruct Hin as [Hin|Hin].
  - subst ev. discriminate.
  - now apply IH.
Qed.

(** After an insertion the cache holds at most one entry more than the
    limit (and one entry when the limit is negative). *)
Lemma set_size_bound (key : string) (v : value) (date stamp : Z) (s : state) :
  Map_size (_cache (snd (set key v date stamp s))) <= Z.max (_limit s) 0 + 1.
Proof.
  destruct (set_eq key v date stamp s)
    as (dropped & kept & evs & _ & Hrun & _ & _ & Hstop).
  rewrite Hrun. simpl. unfold Map_size in *.
  pose proof (Map_set_length key (mkEntry v stamp) kept) as Hlen.
  destruct kept as [|[k e] rest].
  - simpl in *. lia.
  - destruct Hstop as [Hsize _]. lia.
Qed.

(** The three ways [get] can go. *)
Lemma get_absent (key : string) (now : Z) (s : state) :
  Map_get key (_cache s) = None -> get key now s = (Ok VUndefined, s).
Proof. intros H. unfold get. now rewrite H. Qed.

Lemma get_live (key : string) (now : Z) (s : state) (e : entry) :
  Map_get key (_cache s) = Some e ->
  now < expire_of e + _time s ->
  get key now s = (Ok (value_of e), emit (LoggerLog "Using memoized function.") s).
Proof.
  intros H Hlive. unfold get. rewrite H.
  destruct (expire_of e + _time s >? now) eqn:C; [reflexivity | lia].
Qed.

Lemma get_expired (key : string) (now : Z) (s : state) (e : entry) :
  Map_get key (_cache s) = Some e ->
  expire_of e + _time s <= now ->
  get key now s = (Ok VUndefined, snd (remove key s)).
Proof.
  intros H Hdead. unfold get. rewrite H.
  destruct (expire_of e + _time s >? now) eqn:C; [lia | reflexivity].
Qed.

Section MemoizedProperties.

Variable JSON_stringify : list value -> string.
Variable fn : list value -> result value.

Local Abbreviation memoized := (memoized JSON_stringify fn).
Local Abbreviation apply_fn := (apply_fn fn).

(** A live entry with a truthy value is returned and [fn] is not called. *)
Lemma memoized_truthy_hit (args : list value) (t_get t_date t_stamp : Z)
      (s : state) (e : entry) :
  Map_get (JSON_stringify args) (_cache s) = Some e ->
  t_get < expire_of e + _time s ->
  truthy (value_of e) = true ->
  memoized args t_get t_date t_stamp s =
  (Ok (value_of e), emit (LoggerLog "Using memoized function.") s).
Proof.
  intros H Hlive Ht. unfold memoized, bind.
  rewrite (get_live _ _ _ _ H Hlive). now rewrite Ht.
Qed.

(** What [get] leaves behind when [memoized] goes on to call [fn]: the
    state [s1], reached from [s] by the events [evs], none of which is a
    call of [fn] or a read of the document cache. *)
Lemma memoized_falls_through (args : list value) (t_get t_date t_stamp : Z) (s : state) :
  no_truthy_entry (JSON_stringify args) s \/
  (exists e, Map_get (JSON_stringify args) (_cache s) = Some e /\
             expire_of e + _time s <= t_get) ->
  exists s1 evs,
    memoized args t_get t_date t_stamp s =
      (do v <- apply_fn args ; set (JSON_stringify args) v t_date t_stamp) s1 /\
    _limit s1 = _limit s /\ _time s1 = _time s /\
    trace s1 = trace s ++ evs /\
    filter is_apply evs = [] /\ ~ In CacheServiceGet evs.
Proof.
  intros H. unfold memoized, bind at 1.
  destruct (Map_get (JSON_stringify args) (_cache s)) as [e|] eqn:Hget.
  - destruct (Z_lt_le_dec t_get (expire_of e + _time s)) as [Hlive|Hdead].
    + assert (Hf : truthy (value_of e) = false).
      { destruct H as [H|(e' & He' & Hd)].
        - unfold no_truthy_entry in H. now rewrite Hget in H.
        - injection He' as <-. lia. }
      rewrite (get_live _ _ _ _ Hget Hlive). rewrite Hf.
      eexists _, [LoggerLog _]. split; [reflexivity|]. simpl.
      repeat split; auto. intros [F|[]]. discriminate.
    + rewrite (get_expired _ _ _ _ Hget Hdead). simpl truthy. cbv iota.
      eexists _, [CacheServicePut _]. split; [reflexivity|]. simpl.
      repeat split; auto. intros [F|[]]. discriminate.
  - rewrite (get_absent _ _ _ Hget). simpl truthy. cbv iota.
    exists s, []. split; [reflexivity|]. rewrite app_nil_r.
    repeat split; auto.
Qed.

End MemoizedProperties.

(** ** Properties of the value operations *)

Lemma to_uint_not_Nil (n : nat) : Nat.to_uint n <> Decimal.Nil.
Proof.
  intros H. pose proof (DecimalNat.Unsigned.of_to n) as Hn.
  rewrite H in Hn. simpl in Hn. subst n. discriminate.
Qed.

Lemma string_of_nat_inj (i j : nat) : string_of_nat i = string_of_nat j -> i = j.
Proof.
  unfold string_of_nat. intros H.
  apply DecimalNat.Unsigned.to_uint_inj.
  pose proof (NilZero.usu _ (to_uint_not_Nil i)) as Hi.
  pose proof (NilZero.usu _ (to_uint_not_Nil j)) as Hj.
  rewrite H in Hi. rewrite Hi in Hj. now injection Hj.
Qed.

Lemma string_of_nat_not_length (i : nat) : String.eqb (string_of_nat i) "length" = false.
Proof.
  apply String.eqb_neq. unfold string_of_nat. intros H.
  pose proof (NilZero.usu _ (to_uint_not_Nil i)) as Hi.
  rewrite H in Hi. discriminate.
Qed.

Lemma array_index_at (i n : nat) :
  (i < n)%nat -> array_index (string_of_nat i) n = Some i.
Proof.
  unfold array_index. intros Hi.
  assert (G : forall len start, (start <= i < start + len)%nat ->
            find (fun j => String.eqb (string_of_nat j) (string_of_nat i)) (seq start len)
            = Some i).
  { induction len as [|len IH]; intros start Hr; [lia|].
    simpl. destruct (String.eqb (string_of_nat start) (string_of_nat i)) eqn:E.
    - apply String.eqb_eq, string_of_nat_inj in E. now subst.
    - apply IH. apply String.eqb_neq in E.
      assert (start <> i) by (intros ->; now apply E). lia. }
  apply G. lia.
Qed.

Lemma get_property_at (items : list value) (i : nat) :
  (i < List.length items)%nat ->
  get_property (VArr items) (string_of_nat i) = Ok (nth i items VUndefined).
Proof.
  intros Hi. simpl. rewrite string_of_nat_not_length.
  now rewrite (array_index_at _ _ Hi).
Qed.

Lemma get_property_throws (v : value) (k : string) (e : error) :
  get_property v k = Throw e -> e = TypeError.
Proof.
  destruct v; simpl; try congruence.
  - destruct (String.eqb k "length"); [discriminate|].
    destruct (array_index k (String.length s)); discriminate.
  - destruct (String.eqb k "length"); [discriminate|].
    destruct (array_index k (List.length items)); discriminate.
  - destruct (lookup k fields); discriminate.
Qed.

Lemma has_property_throws (v : value) (k : string) (e : error) :
  has_property k v = Throw e -> e = TypeError.
Proof. destruct v; simpl; congruence. Qed.

Lemma iterate_throws (v : value) (e : error) :
  iterate v = Throw e -> e = TypeError.
Proof. destruct v; simpl; congruence. Qed.

Lemma loose_eq_null (StringToNumber : string -> option Z) (v : value) :
  loose_eq StringToNumber VNull v = nullish v.
Proof. now destruct v. Qed.

(** ** Properties of the attribute resolver *)

Section InsightProperties.

Variable fetch_json : string -> result value.
Variable encodeURIComponent : string -> string.
Variable StringToNumber : string -> option Z.

Local Abbreviation loose_eq := (loose_eq StringToNumber).
Local Abbreviation find_attribute := (find_attribute StringToNumber).
Local Abbreviation scan_attributes := (scan_attributes StringToNumber).
Local Abbreviation scan_objects := (scan_objects StringToNumber).
Local Abbreviation insightRequest := (insightRequest fetch_json).
Local Abbreviation insightObjectsIql := (insightObjectsIql fetch_json encodeURIComponent).
Local Abbreviation getObjectTypeIdFromName :=
  (getObjectTypeIdFromName fetch_json StringToNumber).
Local Abbreviation getObjectTypeAttributeId :=
  (getObjectTypeAttributeId fetch_json StringToNumber).
Local Abbreviation getLazyIQL :=
  (getLazyIQL fetch_json encodeURIComponent StringToNumber).

(** No item of the list carries the name: the loop runs to its end. *)
Lemma find_attribute_absent (name : value) (items : list value) :
  Forall (fun item => exists n, get_property item "name" = Ok n /\ loose_eq name n = false)
         items ->
  find_attribute name (VArr items) (for_in_keys (VArr items)) = Ok VNull.
Proof.
  intros Habs. simpl for_in_keys.
  assert (G : forall len start, (start + len <= List.length items)%nat ->
            find_attribute name (VArr items) (map string_of_nat (seq start len)) = Ok VNull).
  { induction len as [|len IH]; intros start Hr; [reflexivity|].
    cbn [seq map find_attribute].
    rewrite get_property_at by lia. cbn [result_bind].
    rewrite Forall_forall in Habs.
    destruct (Habs (nth start items VUndefined)) as (n & Hn & Hneq).
    { apply nth_In. lia. }
    rewrite Hn. cbn [result_bind]. rewrite Hneq. apply IH. lia. }
  apply G. lia.
Qed.

(** An attribute list whose members are objects with no [null]
    identifier adds nothing under the identifier [null]. *)
Lemma scan_attributes_null (attributes results : list value) :
  Forall (fun a => exists fields, a = VObj fields /\
            forall id, lookup "objectTypeAttributeId" fields = Some id -> nullish id = false)
         attributes ->
  scan_attributes VNull attributes results = Ok results.
Proof.
  induction 1 as [|a rest (fields & -> & Hid) _ IH]; [reflexivity|].
  cbn [scan_attributes has_property get_property result_bind].
  destruct (lookup "objectTypeAttributeId" fields) as [id|] eqn:L.
  - cbn [result_bind]. rewrite loose_eq_null, (Hid id eq_refl). exact IH.
  - exact IH.
Qed.

Lemma scan_attributes_throws (id : value) (attributes : list value) :
  forall results e, scan_attributes id attributes results = Throw e -> e = TypeError.
Proof.
  induction attributes as [|a rest IH]; intros results e; [discriminate|].
  cbn [scan_attributes].
  destruct (has_property "objectTypeAttributeId" a) as [[|]|e0] eqn:Hp; cbn [result_bind].
  - destruct (get_property a "objectTypeAttributeId") as [aid|e1] eqn:G1; cbn [result_bind].
    + destruct (loose_eq id aid); [|apply IH].
      destruct (get_property a "objectAttributeValues") as [vals|e2] eqn:G2; cbn [result_bind].
      * destruct (get_property vals "0") as [v0|e3] eqn:G3; cbn [result_bind].
        -- destruct (get_property v0 "displayValue") as [d|e4] eqn:G4; cbn [result_bind].
           ++ apply IH.
           ++ intros [= <-]. exact (get_property_throws _ _ _ G4).
        -- intros [= <-]. exact (get_property_throws _ _ _ G3).
      * intros [= <-]. exact (get_property_throws _ _ _ G2).
    + intros [= <-]. exact (get_property_throws _ _ _ G1).
  - apply IH.
  - intros [= <-]. exact (has_property_throws _ _ _ Hp).
Qed.

(** A matching attribute with an empty value list stops the scan with a
    TypeError, unless an earlier attribute already did. *)
Lemma scan_attributes_empty_values (id aid attribute : value) (attributes : list value) :
  In attribute attributes ->
  has_property "objectTypeAttributeId" attribute = Ok true ->
  get_property attribute "objectTypeAttributeId" = Ok aid ->
  loose_eq id aid = true ->
  get_property attribute "objectAttributeValues" = Ok (VArr []) ->
  forall results, scan_attributes id attributes results = Throw TypeError.
Proof.
  intros Hin Hp Hid Heq Hvals.
  induction attributes as [|a rest IH]; [contradiction|]. intros results.
  destruct Hin as [->|Hin].
  - cbn [scan_attributes]. rewrite Hp. cbn [result_bind].
    rewrite Hid. cbn [result_bind]. rewrite Heq, Hvals. reflexivity.
  - destruct (scan_attributes id (a :: rest) results) as [r|e] eqn:E.
    + exfalso. revert E. cbn [scan_attributes].
      destruct (has_property "objectTypeAttributeId" a) as [[|]|]; cbn [result_bind];
        try discriminate; [|now rewrite (IH Hin)].
      destruct (get_property a "objectTypeAttributeId") as [x|]; cbn [result_bind];
        try discriminate.
      destruct (loose_eq id x); [|now rewrite (IH Hin)].
      destruct (get_property a "objectAttributeValues") as [vals|]; cbn [result_bind];
        try discriminate.
      destruct (get_property vals "0") as [v0|]; cbn [result_bind]; try discriminate.
      destruct (get_property v0 "displayValue"); cbn [result_bind]; try discriminate.
      now rewrite (IH Hin).
    + f_equal. exact (scan_attributes_throws _ _ _ _ E).
Qed.

Lemma scan_objects_throws (id : value) (objects : list value) :
  forall results e, scan_objects id objects results = Throw e -> e = TypeError.
Proof.
  induction objects as [|o rest IH]; intros results e; [discriminate|].
  cbn [scan_objects].
  destruct (get_property o "attributes") as [attrs|e0] eqn:G; cbn [result_bind].
  - destruct (iterate attrs) as [attributes|e1] eqn:I; cbn [result_bind].
    + destruct (scan_attributes id attributes results) as [r|e2] eqn:S; cbn [result_bind].
      * apply IH.
      * intros [= <-]. exact (scan_attributes_throws _ _ _ _ S).
    + intros [= <-]. exact (iterate_throws _ _ I).
  - intros [= <-]. exact (get_property_throws _ _ _ G).
Qed.

Lemma scan_objects_null (objects results : list value) :
  Forall (fun object => exists attributes,
            get_property object "attributes" = Ok (VArr attributes) /\
            Forall (fun a => exists fields, a = VObj fields /\
                      forall id, lookup "objectTypeAttributeId" fields = Some id ->
                                 nullish id = false)
                   attributes)
         objects ->
  scan_objects VNull objects results = Ok results.
Proof.
  induction 1 as [|o rest (attributes & Hattrs & Hok) _ IH]; [reflexivity|].
  cbn [scan_objects]. rewrite Hattrs. cbn [result_bind iterate].
  rewrite (scan_attributes_null _ _ Hok). exact IH.
Qed.

Lemma scan_objects_empty_values (id aid object attribute : value)
      (objects attributes : list value) :
  In object objects ->
  get_property object "attributes" = Ok (VArr attributes) ->
  In attribute attributes ->
  has_property "objectTypeAttributeId" attribute = Ok true ->
  get_property attribute "objectTypeAttributeId" = Ok aid ->
  loose_eq id aid = true ->
  get_property attribute "objectAttributeValues" = Ok (VArr []) ->
  forall results, scan_objects id objects results = Throw TypeError.
Proof.
  intros Hin Hattrs Hina Hp Hid Heq Hvals.
  induction objects as [|o rest IH]; [contradiction|]. intros results.
  destruct Hin as [->|Hin].
  - cbn [scan_objects]. rewrite Hattrs. cbn [result_bind iterate].
    now rewrite (scan_attributes_empty_values id aid attribute attributes Hina Hp Hid Heq Hvals).
  - destruct (scan_objects id (o :: rest) results) as [r|e] eqn:E.
    + exfalso. revert E. cbn [scan_objects].
      destruct (get_property o "attributes") as [attrs|]; cbn [result_bind];
        try discriminate.
      destruct (iterate attrs) as [l|]; cbn [result_bind]; try discriminate.
      destruct (scan_attributes id l results); cbn [result_bind]; try discriminate.
      now rewrite (IH Hin).
    + f_equal. exact (scan_objects_throws _ _ _ _ E).
Qed.

(** C6, amended. When the object type resolves, the attribute request
    returns a list, every item of the list has a readable name and none
    carries the name asked for, [getObjectTypeAttributeId] returns
    [null]; and [getLazyIQL] then returns the empty array, provided the
    search request returns a result whose [objectEntries] is a list of
    objects with lists of attributes that are objects, none of which has
    the identifier [null]. *)
Theorem absent_attribute_resolves_to_nothing
        (iql_search attribute object_name object_schema_id : value)
        (object_type_id data : value) (attribute_list objects : list value) :
  getObjectTypeIdFromName object_name object_schema_id = Ok object_type_id ->
  insightRequest ("objecttype/" ++ ToString object_type_id ++ "/attributes")%string
    = Ok (VArr attribute_list) ->
  Forall (fun item => exists n, get_property item "name" = Ok n /\
                                loose_eq attribute n = false)
         attribute_list ->
  insightObjectsIql iql_search = Ok data ->
  get_property data "objectEntries" = Ok (VArr objects) ->
  Forall (fun object => exists attributes,
            get_property object "attributes" = Ok (VArr attributes) /\
            Forall (fun a => exists fields, a = VObj fields /\
                      forall id, lookup "objectTypeAttributeId" fields = Some id ->
                                 nullish id = false)
                   attributes)
         objects ->
  getObjectTypeAttributeId attribute object_name object_schema_id = Ok VNull /\
  getLazyIQL iql_search attribute object_name object_schema_id = Ok [].
Proof.
  intros Htype Hlist Habsent Hsearch Hentries Hshape.
  assert (Hnull : getObjectTypeAttributeId attribute object_name object_schema_id = Ok VNull).
  { unfold getObjectTypeAttributeId. rewrite Htype. cbn [result_bind].
    rewrite Hlist. cbn [result_bind]. now apply find_attribute_absent. }
  split; [exact Hnull|].
  unfold getLazyIQL. rewrite Hnull. cbn [result_bind].
  rewrite Hsearch. cbn [result_bind]. rewrite Hentries. cbn [result_bind iterate].
  now apply scan_objects_null.
Qed.

(** C8. When the search result holds an object with an attribute whose
    identifier matches the resolved one and whose value list is empty,
    [getLazyIQL] throws a TypeError: element 0 of the empty list is
    [undefined], and reading its [displayValue] fails. *)
Theorem matching_attribute_without_values_fails
        (iql_search attribute_name object_name object_schema_id : value)
        (id aid data object attribute : value) (objects attributes : list value) :
  getObjectTypeAttributeId attribute_name object_name object_schema_id = Ok id ->
  insightObjectsIql iql_search = Ok data ->
  get_property data "objectEntries" = Ok (VArr objects) ->
  In object objects ->
  get_property object "attributes" = Ok (VArr attributes) ->
  In attribute attributes ->
  has_property "objectTypeAttributeId" attribute = Ok true ->
  get_property attribute "objectTypeAttributeId" = Ok aid ->
  loose_eq id aid = true ->
  get_property attribute "objectAttributeValues" = Ok (VArr []) ->
  getLazyIQL iql_search attribute_name object_name object_schema_id = Throw TypeError.
Proof.
  intros Hid Hsearch Hentries Hin Hattrs Hina Hp Haid Heq Hvals.
  unfold getLazyIQL. rewrite Hid. cbn [result_bind].
  rewrite Hsearch. cbn [result_bind]. rewrite Hentries. cbn [result_bind iterate].
  exact (scan_objects_empty_values id aid object attribute objects attributes
           Hin Hattrs Hina Hp Haid Heq Hvals []).
Qed.

End InsightProperties.

Lemma absent_attribute_resolves_to_nothing_witness :
  getObjectTypeAttributeId sample_server sample_StringToNumber
    (VStr "Color") (VStr "Server") (VStr "10") = Ok VNull /\
  getLazyIQL sample_server sample_encodeURIComponent sample_StringToNumber
    (VStr "Server") (VStr "Color") (VStr "Server") (VStr "10") = Ok [].
Proof.
  apply (absent_attribute_resolves_to_nothing
           sample_server sample_encodeURIComponent sample_StringToNumber
           (VStr "Server") (VStr "Color") (VStr "Server") (VStr "10")
           (VNum 2) search_servers
           [VObj [("id", VNum 7); ("name", VStr "Name")];
            VObj [("id", VNum 8); ("name", VStr "Owner")]]
           [VObj [("attributes",
                   VArr [VObj [("objectTypeAttributeId", VNum 7);
                               ("objectAttributeValues",
                                VArr [VObj [("displayValue", VStr "srv-1")]])];
                         VObj [("objectTypeAttributeId", VNum 8);
                               ("objectAttributeValues",
                                VArr [VObj [("displayValue", VStr "Alice")]])]])]]).
  - reflexivity.
  - reflexivity.
  - repeat constructor; eexists; (split; [reflexivity | reflexivity]).
  - reflexivity.
  - reflexivity.
  - constructor; [|constructor]. eexists. split; [reflexivity|].
    repeat constructor; eexists; (split; [reflexivity|]);
      intros id [= <-]; reflexivity.
Defined.

(** C6 fails without the provisos on the shape of the responses. For the
    name ["Color"], which no attribute of the sample type carries,
    [getObjectTypeAttributeId] returns [null]; the search ["Refused"] is
    answered by the error body of the server, which has no object
    attribute at all, so none with the identifier [null]; and
    [getLazyIQL] throws a TypeError, for the error body has no
    [objectEntries] to iterate over. And when the attribute list holds
    [null], which carries no name either, [getObjectTypeAttributeId]
    itself throws a TypeError. *)
Lemma absent_attribute_fails_on_a_refused_search :
  getObjectTypeAttributeId sample_server sample_StringToNumber
    (VStr "Color") (VStr "Server") (VStr "10") = Ok VNull /\
  insightObjectsIql sample_server sample_encodeURIComponent (VStr "Refused")
    = Ok error_body /\
  getLazyIQL sample_server sample_encodeURIComponent sample_StringToNumber
    (VStr "Refused") (VStr "Color") (VStr "Server") (VStr "10") = Throw TypeError /\
  getLazyIQL sample_server sample_encodeURIComponent sample_StringToNumber
    (VStr "Refused") (VStr "Color") (VStr "Server") (VStr "10") <> Ok [] /\
  getObjectTypeAttributeId
    (fun url => if String.eqb url "objecttype/2/attributes"
                then Ok (VArr [VNull]) else sample_server url)
    sample_StringToNumber (VStr "Color") (VStr "Server") (VStr "10") = Throw TypeError.
Proof.
  repeat split; try (vm_compute; reflexivity).
  vm_compute. discriminate.
Qed.

Lemma matching_attribute_without_values_fails_witness :
  getLazyIQL sample_server sample_encodeURIComponent sample_StringToNumber
    (VStr "Unowned") (VStr "Owner") (VStr "Server") (VStr "10") = Throw TypeError.
Proof.
  apply (matching_attribute_without_values_fails
           sample_server sample_encodeURIComponent sample_StringToNumber
           (VStr "Unowned") (VStr "Owner") (VStr "Server") (VStr "10")
           (VNum 8) (VNum 8) search_unowned
           (VObj [("attributes",
                   VArr [VObj [("objectTypeAttributeId", VNum 8);
                               ("objectAttributeValues", VArr [])]])])
           (VObj [("objectTypeAttributeId", VNum 8); ("objectAttributeValues", VArr [])])
           [VObj [("attributes",
                   VArr [VObj [("objectTypeAttributeId", VNum 8);
                               ("objectAttributeValues", VArr [])]])]]
           [VObj [("objectTypeAttributeId", VNum 8); ("objectAttributeValues", VArr [])]]).
  - reflexivity.
  - reflexivity.
  - reflexivity.
  - now left.
  - reflexivity.
  - now left.
  - reflexivity.
  - reflexivity.
  - reflexivity.
  - reflexivity.
Defined.

(** ** Properties of the memoized wrapper *)

Lemma set_unfold (key : string) (v : value) (date stamp : Z) (s : state) :
  set key v date stamp s =
  match set_loop (_cache s) date s with
  | (Ok _, s1) =>
      (Ok v,
       mkState (_limit s1) (_time s1)
               (Map_set key (mkEntry v stamp) (_cache s1))
               (Some (Map_set key (mkEntry v stamp) (_cache s1)))
               (trace s1 ++ [CacheServicePut (Map_set key (mkEntry v stamp) (_cache s1))]))
  | (Throw e, s1) => (Throw e, s1)
  end.
Proof.
  unfold set, bind. destruct (set_loop (_cache s) date s) as [[[]|e] s1]; reflexivity.
Qed.

(** The loop of [set] does not look at the stored blob. *)
Lemma set_loop_service_irrelevant (entries : Map) (date : Z) (b : option Map) (s : state) :
  set_loop entries date (with_service b s) = set_loop entries date s \/
  (set_loop entries date (with_service b s) = (Ok tt, with_service b s) /\
   set_loop entries date s = (Ok tt, s)).
Proof.
  destruct entries as [|[k e] rest].
  - right. split; reflexivity.
  - cbn [set_loop _cache _limit _time with_service].
    destruct ((Map_size (_cache s) >? _limit s) || (expire_of e + _time s <? date)).
    + left. unfold bind. rewrite !remove_eq. reflexivity.
    + right. split; reflexivity.
Qed.

Lemma set_service_irrelevant (key : string) (v : value) (date stamp : Z)
      (b : option Map) (s : state) :
  set key v date stamp (with_service b s) = set key v date stamp s.
Proof.
  rewrite !set_unfold. cbn [_cache with_service].
  destruct (set_loop_service_irrelevant (_cache s) date b s) as [H|[H1 H2]].
  - now rewrite H.
  - rewrite H1, H2. reflexivity.
Qed.

Section MemoizedClaims.

Variable JSON_stringify : list value -> string.
Variable fn : list value -> result value.

Local Abbreviation memoized := (memoized JSON_stringify fn).
Local Abbreviation apply_fn := (apply_fn fn).

(** After [fn] is called from the state [s1], the events added are the
    call followed by writes of the blob only, and the result is that of
    [fn]. *)
Lemma apply_and_set_eq (args : list value) (key : string) (t_date t_stamp : Z) (s1 : state) :
  exists s' evs,
    (do v <- apply_fn args ; set key v t_date t_stamp) s1 = (fn args, s') /\
    _limit s' = _limit s1 /\ _time s' = _time s1 /\
    trace s' = trace s1 ++ Apply args :: evs /\
    forallb is_put evs = true /\
    (forall v, fn args = Ok v -> Map_get key (_cache s') = Some (mkEntry v t_stamp)).
Proof.
  unfold bind, apply_fn.
  destruct (fn args) as [v|e] eqn:F.
  - destruct (set_eq key v t_date t_stamp (emit (Apply args) s1))
      as (dropped & kept & evs & _ & Hrun & Hputs & _ & _).
    rewrite Hrun. eexists _, (evs ++ [CacheServicePut _]).
    split; [reflexivity|]. cbn.
    repeat split.
    + now rewrite <- app_assoc.
    + rewrite forallb_app, Hputs. reflexivity.
    + intros v' [= <-]. apply Map_get_set_same.
  - eexists _, []. split; [reflexivity|]. cbn. repeat split. discriminate.
Qed.

(** C5. When the entry for the arguments has outlived the time-to-live
    ([expire + _time <= now]), the call removes it: the cache written to
    the blob no longer has an entry for the key. It then calls [fn] and
    returns what [fn] returns; no hit is logged. Afterwards the key holds
    the value just computed, stamped anew, or nothing when [fn] threw. *)
Theorem memoized_expired_entry_is_removed_and_recomputed
        (args : list value) (t_get t_date t_stamp : Z) (s : state) (e : entry) :
  Map_get (JSON_stringify args) (_cache s) = Some e ->
  expire_of e + _time s <= t_get ->
  distinct_keys (_cache s) ->
  let s' := snd (memoized args t_get t_date t_stamp s) in
  fst (memoized args t_get t_date t_stamp s) = fn args /\
  Map_get (JSON_stringify args) (Map_delete (JSON_stringify args) (_cache s)) = None /\
  (exists evs,
      new_events s s' =
        CacheServicePut (Map_delete (JSON_stringify args) (_cache s)) :: Apply args :: evs /\
      forallb is_put evs = true) /\
  Map_get (JSON_stringify args) (_cache s')
  = match fn args with
    | Ok v => Some (mkEntry v t_stamp)
    | Throw _ => None
    end.
Proof.
  intros Hget Hdead Hnd. cbn zeta.
  pose proof (Map_get_delete_same (JSON_stringify args) (_cache s) Hnd) as Hgone.
  destruct (apply_and_set_eq args (JSON_stringify args) t_date t_stamp
              (snd (remove (JSON_stringify args) s)))
    as (s' & evs & Hrun & _ & _ & Htrace & Hputs & Hentry).
  assert (E : memoized args t_get t_date t_stamp s = (fn args, s')).
  { unfold memoized, bind at 1.
    rewrite (get_expired _ _ _ _ Hget Hdead). cbn [truthy]. exact Hrun. }
  assert (Hthrow : forall err, fn args = Throw err ->
                   _cache s' = Map_delete (JSON_stringify args) (_cache s)).
  { intros err Herr. unfold bind, apply_fn in Hrun. rewrite Herr in Hrun.
    injection Hrun as <-. reflexivity. }
  rewrite E. cbn [fst snd]. split; [reflexivity|]. split; [exact Hgone|]. split.
  - exists evs. split; [|exact Hputs].
    apply new_events_app. rewrite Htrace. cbn. now rewrite <- app_assoc.
  - destruct (fn args) as [v|err] eqn:F.
    + exact (Hentry v eq_refl).
    + rewrite (Hthrow err eq_refl). exact Hgone.
Qed.

(** A call that finds nothing truthy for its key and whose [fn] returns
    a falsy value calls [fn] once and leaves the cache as it found it in
    that respect. *)
Lemma memoized_falsy_is_recomputed (args : list value) (t_get t_date t_stamp : Z)
      (s : state) (v : value) :
  fn args = Ok v ->
  truthy v = false ->
  no_truthy_entry (JSON_stringify args) s ->
  exists s' evs,
    memoized args t_get t_date t_stamp s = (Ok v, s') /\
    no_truthy_entry (JSON_stringify args) s' /\
    trace s' = trace s ++ evs /\
    invocations evs = 1%nat.
Proof.
  intros Hfn Hfalsy Hno.
  destruct (memoized_falls_through JSON_stringify fn args t_get t_date t_stamp s (or_introl Hno))
    as (s1 & evs1 & Hrun & _ & _ & Htrace1 & Hnoapply & _).
  destruct (apply_and_set_eq args (JSON_stringify args) t_date t_stamp s1)
    as (s' & evs & Hrun' & _ & _ & Htrace & Hputs & Hentry).
  exists s', (evs1 ++ Apply args :: evs).
  rewrite Hrun, Hrun', Hfn. split; [reflexivity|]. split; [|split].
  - unfold no_truthy_entry. now rewrite (Hentry v Hfn).
  - rewrite Htrace, Htrace1. now rewrite <- app_assoc.
  - unfold invocations. rewrite filter_app, Hnoapply. cbn.
    now rewrite (puts_are_not_applies _ Hputs).
Qed.

(** Any number of such calls in a row: each returns the falsy value and
    each calls [fn]. *)
Lemma repeated_falsy_calls (args : list value) (v : value) (times : list (Z * Z * Z)) :
  fn args = Ok v ->
  truthy v = false ->
  forall s,
    no_truthy_entry (JSON_stringify args) s ->
    fst (repeat_call (memoized args) times s) = Ok (repeat v (List.length times)) /\
    invocations (new_events s (snd (repeat_call (memoized args) times s)))
      = List.length times.
Proof.
  intros Hfn Hfalsy.
  assert (G : forall s, no_truthy_entry (JSON_stringify args) s ->
            exists s' evs,
              repeat_call (memoized args) times s
                = (Ok (repeat v (List.length times)), s') /\
              trace s' = trace s ++ evs /\
              invocations evs = List.length times).
  { induction times as [|[[t_get t_date] t_stamp] rest IH]; intros s Hno.
    - exists s, []. cbn. now rewrite app_nil_r.
    - destruct (memoized_falsy_is_recomputed args t_get t_date t_stamp s v Hfn Hfalsy Hno)
        as (s1 & evs1 & Hrun1 & Hno1 & Htrace1 & Hcount1).
      destruct (IH s1 Hno1) as (s' & evs & Hrun & Htrace & Hcount).
      exists s', (evs1 ++ evs). cbn [repeat_call]. unfold bind at 1. rewrite Hrun1.
      unfold bind at 1. rewrite Hrun. cbn. split; [reflexivity|]. split.
      + rewrite Htrace, Htrace1. now rewrite <- app_assoc.
      + unfold invocations in *. rewrite filter_app, length_app. lia. }
  intros s Hno. destruct (G s Hno) as (s' & evs & Hrun & Htrace & Hcount).
  rewrite Hrun. cbn [fst snd]. split; [reflexivity|].
  now rewrite (new_events_app _ _ _ Htrace).
Qed.

(** A call is a hit on a live truthy entry, or else goes on to [fn]. *)
Lemma hit_or_fall_through (key : string) (t_get : Z) (s : state) :
  (exists e, Map_get key (_cache s) = Some e /\
             t_get < expire_of e + _time s /\ truthy (value_of e) = true) \/
  (no_truthy_entry key s \/
   exists e, Map_get key (_cache s) = Some e /\ expire_of e + _time s <= t_get).
Proof.
  unfold no_truthy_entry.
  destruct (Map_get key (_cache s)) as [e|]; [|right; now left].
  destruct (Z_lt_le_dec t_get (expire_of e + _time s)) as [Hlive|Hdead].
  - destruct (truthy (value_of e)) eqn:Ht.
    + left. now exists e.
    + right. now left.
  - right. right. now exists e.
Qed.

(** A call never reads the document cache, whatever its outcome. *)
Lemma memoized_does_not_read (args : list value) (t_get t_date t_stamp : Z) (s : state) :
  ~ In CacheServiceGet (new_events s (snd (memoized args t_get t_date t_stamp s))).
Proof.
  destruct (hit_or_fall_through (JSON_stringify args) t_get s)
    as [(e & Hget & Hlive & Ht)|Hfall].
  - rewrite (memoized_truthy_hit _ _ _ _ _ _ _ _ Hget Hlive Ht). cbn [snd].
    rewrite (new_events_app s _ [LoggerLog "Using memoized function."]) by reflexivity.
    intros [F|[]]. discriminate.
  - destruct (memoized_falls_through JSON_stringify fn args t_get t_date t_stamp s Hfall)
      as (s1 & evs1 & Hrun & _ & _ & Htrace1 & _ & Hnoget).
    destruct (apply_and_set_eq args (JSON_stringify args) t_date t_stamp s1)
      as (s' & evs & Hrun' & _ & _ & Htrace & Hputs & _).
    rewrite Hrun, Hrun'. cbn [snd].
    rewrite (new_events_app s s' (evs1 ++ Apply args :: evs)).
    + intros Hin. apply in_app_or in Hin. destruct Hin as [Hin|[Hin|Hin]].
      * now apply Hnoget.
      * discriminate.
      * now apply (puts_are_not_gets _ Hputs).
    + rewrite Htrace, Htrace1. now rewrite <- app_assoc.
Qed.

(** Nor does its outcome depend on what the document cache holds. *)
Lemma memoized_service_irrelevant (args : list value) (t_get t_date t_stamp : Z)
      (b : option Map) (s : state) :
  fst (memoized args t_get t_date t_stamp (with_service b s))
    = fst (memoized args t_get t_date t_stamp s) /\
  _cache (snd (memoized args t_get t_date t_stamp (with_service b s)))
    = _cache (snd (memoized args t_get t_date t_stamp s)).
Proof.
  unfold memoized, get, apply_fn, bind.
  cbn [_cache _time with_service].
  destruct (Map_get (JSON_stringify args) (_cache s)) as [e|].
  - destruct (expire_of e + _time s >? t_get).
    + destruct (truthy (value_of e)); [split; reflexivity|].
      destruct (fn args) as [v|err]; [|split; reflexivity].
      change (emit (Apply args)
                (emit (LoggerLog "Using memoized function.") (with_service b s)))
        with (with_service b
                (emit (Apply args) (emit (LoggerLog "Using memoized function.") s))).
      now rewrite set_service_irrelevant.
    + rewrite !remove_eq. cbn. split; reflexivity.
  - cbn [truthy]. destruct (fn args) as [v|err]; [|split; reflexivity].
    change (emit (Apply args) (with_service b s))
      with (with_service b (emit (Apply args) s)).
    now rewrite set_service_irrelevant.
Qed.

End MemoizedClaims.

Lemma memoized_expired_entry_is_removed_and_recomputed_witness :
  Map_get alice_key (_cache stale_state) = Some sample_entry /\
  expire_of sample_entry + _time stale_state <= 10 /\
  distinct_keys (_cache stale_state) /\
  fst (memoized sample_stringify first_argument [VStr "Alice"] 10 11 12 stale_state)
    = first_argument [VStr "Alice"] /\
  Map_get alice_key (Map_delete alice_key (_cache stale_state)) = None /\
  (exists evs,
      new_events stale_state
        (snd (memoized sample_stringify first_argument [VStr "Alice"] 10 11 12 stale_state))
      = CacheServicePut (Map_delete alice_key (_cache stale_state))
          :: Apply [VStr "Alice"] :: evs /\
      forallb is_put evs = true) /\
  Map_get alice_key
    (_cache (snd (memoized sample_stringify first_argument [VStr "Alice"] 10 11 12
                    stale_state)))
  = Some (mkEntry (VStr "Alice") 12).
Proof.
  split; [reflexivity|]. split; [vm_compute; discriminate|].
  split; [repeat constructor; intros []|].
  apply (memoized_expired_entry_is_removed_and_recomputed
           sample_stringify first_argument [VStr "Alice"] 10 11 12 stale_state sample_entry).
  - reflexivity.
  - vm_compute. discriminate.
  - repeat constructor. intros [].
Defined.

(** C1, at the inputs where it fails. For each falsy value that [fn] can
    return, the first call stores it and a second call with the same
    arguments, one millisecond later and well within the time-to-live,
    calls [fn] again. *)
Theorem falsy_cached_value_is_recomputed :
  Forall (fun v =>
            let call := memoized sample_stringify (fun _ => Ok v) [VStr "q"] in
            let s1 := snd (call 0 0 0 (initial_state None)) in
            let s2 := snd (call 1 1 1 s1) in
            Map_get (sample_stringify [VStr "q"]) (_cache s1) = Some (mkEntry v 0) /\
            1 < 0 + _time s1 /\
            invocations (new_events s1 s2) = 1%nat /\
            invocations (trace s2) = 2%nat)
         [VStr ""%string; VNum 0; VBool false; VNull; VUndefined].
Proof.
  repeat constructor; vm_compute; reflexivity.
Qed.

(** C2, at the inputs where it fails. [_LAZYIQL] and [_LAZYIQL_LIST] do not
    pass [object_name] and [object_schema_id] on, so their results do not
    depend on them; on the sample server, where the attribute ["Owner"] of
    the type ["Server"] in the schema ["10"] resolves to ["Alice"], both
    entry points throw. *)
Theorem LAZYIQL_drops_object_name_and_schema :
  (forall fetch_json encodeURIComponent StringToNumber
          iql_search attribute object_name schema_id object_name' schema_id',
      _LAZYIQL fetch_json encodeURIComponent StringToNumber
               iql_search attribute object_name schema_id
      = _LAZYIQL fetch_json encodeURIComponent StringToNumber
                 iql_search attribute object_name' schema_id' /\
      _LAZYIQL_LIST fetch_json encodeURIComponent StringToNumber
                    iql_search attribute object_name schema_id
      = _LAZYIQL_LIST fetch_json encodeURIComponent StringToNumber
                      iql_search attribute object_name' schema_id') /\
  getLazyIQL sample_server sample_encodeURIComponent sample_StringToNumber
    (VStr "Server") (VStr "Owner") (VStr "Server") (VStr "10") = Ok [VStr "Alice"] /\
  fst (LAZYIQL sample_server sample_encodeURIComponent sample_StringToNumber sample_stringify
         (VStr "Server") (VStr "Owner") (VStr "Server") (VStr "10") 0 0 0
         (initial_state None)) = Throw TypeError /\
  fst (LAZYIQL_LIST sample_server sample_encodeURIComponent sample_StringToNumber
         sample_stringify
         (VStr "Server") (VStr "Owner") (VStr "Server") (VStr "10") 0 0 0
         (initial_state None)) = Throw TypeError.
Proof.
  split; [intros; split; reflexivity|].
  repeat split; vm_compute; reflexivity.
Qed.

(** C3, at the inputs where it fails. With the limit set to 1, two calls
    with distinct arguments leave two entries in the cache: the loop of
    [set] compares the size with the limit before the insertion. *)
Theorem cache_holds_one_entry_more_than_the_limit :
  let s0 := snd (limit (AVal (VNum 1)) (initial_state None)) in
  let s1 := snd (memoized sample_stringify first_argument [VStr "Alice"] 0 0 0 s0) in
  let s2 := snd (memoized sample_stringify first_argument [VStr "Bob"] 1 1 1 s1) in
  _limit s2 = 1 /\
  _cache s2 = [(alice_key, mkEntry (VStr "Alice") 0); (bob_key, mkEntry (VStr "Bob") 1)] /\
  Map_size (_cache s2) = 2.
Proof.
  vm_compute. repeat split.
Qed.

(** C4 fails in two places. A call does not read the document cache: made
    on a closure that was set up before another closure wrote an entry for
    the same key, it misses that entry and calls [fn]. And [flush] empties
    the cache without writing the blob, which still holds the entry. *)
Lemma lookup_does_not_read_and_flush_does_not_write :
  (let s' := snd (memoized sample_stringify first_argument [VStr "Alice"] 1 1 1 behind_state) in
   cache_service behind_state = Some [(sample_stringify [VStr "Alice"], sample_entry)] /\
   ~ In CacheServiceGet (new_events behind_state s') /\
   invocations (new_events behind_state s') = 1%nat) /\
  (let s' := snd (flush stale_state) in
   _cache s' = [] /\
   new_events stale_state s' = [] /\
   cache_service s' <> Some (_cache s')).
Proof.
  split.
  - split; [reflexivity|]. split; [|vm_compute; reflexivity].
    vm_compute. intros [H|[H|[]]]; discriminate H.
  - split; [reflexivity|]. split; [vm_compute; reflexivity|].
    vm_compute. discriminate.
Qed.

(** C4, amended. The document cache is read once, when [memoize] sets up
    the closure; a call of the wrapper does not read it and does not depend
    on it; and after every insertion ([set]) and every removal ([remove])
    the blob is the whole cache, written as the last event. *)
Theorem store_is_read_by_memoize_and_written_by_set_and_remove :
  (forall f blob,
      trace (snd (memoize f blob)) = [CacheServiceGet] /\
      _cache (snd (memoize f blob)) = match blob with
                                      | Some pairs => Map_of pairs
                                      | None => []
                                      end) /\
  (forall JSON_stringify fn args t_get t_date t_stamp s,
      ~ In CacheServiceGet
          (new_events s (snd (memoized JSON_stringify fn args t_get t_date t_stamp s)))) /\
  (forall JSON_stringify fn args t_get t_date t_stamp blob s,
      fst (memoized JSON_stringify fn args t_get t_date t_stamp (with_service blob s))
        = fst (memoized JSON_stringify fn args t_get t_date t_stamp s) /\
      _cache (snd (memoized JSON_stringify fn args t_get t_date t_stamp (with_service blob s)))
        = _cache (snd (memoized JSON_stringify fn args t_get t_date t_stamp s))) /\
  (forall key v date stamp s,
      let s' := snd (set key v date stamp s) in
      Map_get key (_cache s') = Some (mkEntry v stamp) /\
      cache_service s' = Some (_cache s') /\
      exists evs, new_events s s' = evs ++ [CacheServicePut (_cache s')]) /\
  (forall key s,
      let s' := snd (remove key s) in
      _cache s' = Map_delete key (_cache s) /\
      cache_service s' = Some (_cache s') /\
      new_events s s' = [CacheServicePut (_cache s')]).
Proof.
  split; [|split; [|split; [|split]]].
  - intros [v|f] blob; split; reflexivity.
  - intros. apply memoized_does_not_read.
  - intros. apply memoized_service_irrelevant.
  - intros key v date stamp s.
    destruct (set_eq key v date stamp s) as (dropped & kept & evs & _ & Hrun & _).
    cbn zeta. rewrite Hrun. cbn [snd _cache cache_service].
    split; [apply Map_get_set_same|]. split; [reflexivity|].
    exists evs. apply new_events_app. reflexivity.
  - intros key s. cbn zeta. rewrite remove_eq. cbn [snd _cache cache_service].
    split; [reflexivity|]. split; [reflexivity|].
    apply new_events_app. reflexivity.
Qed.

(** C7. An argument whose type is not [number] makes [memoized.limit] and
    [memoized.expire] throw a TypeError and leaves the closure as it was;
    [memoize] applied to a value that is not a function throws a TypeError
    in place of a wrapper. *)
Theorem configuration_type_errors (x : arg) (v : value) (blob : option Map) (s : state) :
  typeof x <> "number"%string ->
  limit x s = (Throw TypeError, s) /\
  expire x s = (Throw TypeError, s) /\
  fst (memoize (AVal v) blob) = Throw TypeError.
Proof.
  intros Hx. destruct x as [[| | | | | |]|f]; try (repeat split; reflexivity).
  now contradiction Hx.
Qed.

Lemma configuration_type_errors_witness :
  typeof (AVal (VStr "10")) <> "number"%string /\
  limit (AVal (VStr "10")) stale_state = (Throw TypeError, stale_state) /\
  expire (AVal (VStr "10")) stale_state = (Throw TypeError, stale_state) /\
  fst (memoize (AVal (VStr "LAZYIQL")) None) = Throw TypeError.
Proof.
  split; [discriminate|].
  apply (configuration_type_errors (AVal (VStr "10")) (VStr "LAZYIQL") None stale_state).
  discriminate.
Defined.

Lemma Map_get_absent (k : string) (m : Map) :
  ~ In k (map fst m) -> Map_get k m = None.
Proof.
  induction m as [|[k' e'] rest IH]; simpl; intros H; [reflexivity|].
  destruct (String.eqb k k') eqn:E.
  - apply String.eqb_eq in E. exfalso. apply H. left. now symmetry.
  - apply IH. intros Hin. apply H. now right.
Qed.

(** Inserting another key evicts the oldest entry exactly when it is
    expired under the time-to-live in force, provided the cache is within
    its limit. *)
Lemma set_decides_oldest (other oldest : string) (v : value) (date stamp : Z)
      (s : state) (e0 : entry) (rest : Map) :
  _cache s = (oldest, e0) :: rest ->
  distinct_keys (_cache s) ->
  Map_size (_cache s) <= _limit s ->
  other <> oldest ->
  Map_get oldest (_cache (snd (set other v date stamp s)))
  = if expire_of e0 + _time s <? date then None else Some e0.
Proof.
  intros Hc Hnd Hsize Hne.
  assert (Hne' : oldest <> other) by congruence.
  destruct (expire_of e0 + _time s <? date) eqn:Hexp.
  - destruct (set_eq other v date stamp s)
      as (dropped & kept & evs & Hsplit & Hrun & _ & _ & Hstop).
    rewrite Hrun. cbn [snd _cache]. rewrite (Map_get_set_other _ _ _ _ Hne').
    apply Map_get_absent.
    destruct dropped as [|d dropped].
    + cbn in Hsplit. rewrite Hc in Hsplit. subst kept.
      destruct Hstop as [_ Hlive]. apply Z.ltb_lt in Hexp. lia.
    + rewrite Hc in Hsplit. cbn in Hsplit. injection Hsplit as <- Hrest.
      unfold distinct_keys in Hnd. rewrite Hc in Hnd. cbn in Hnd.
      inversion Hnd as [|? ? Hnotin _]; subst.
      intros Hin. apply Hnotin. rewrite map_app. apply in_or_app. now right.
  - assert (Hle : (Map_size (_cache s) >? _limit s) = false) by lia.
    assert (Hloop : set_loop (_cache s) date s = (Ok tt, s)).
    { rewrite Hc at 1. cbn [set_loop]. now rewrite Hle, Hexp. }
    rewrite set_unfold, Hloop. cbn [snd _cache]. rewrite Hc.
    cbn [Map_set]. destruct (String.eqb other oldest) eqn:E.
    + apply String.eqb_eq in E. contradiction.
    + cbn [Map_get]. now rewrite String.eqb_refl.
Qed.

(** C9. An entry keeps only the time of its insertion, and [get] and the
    loop of [set] add the time-to-live in force when they run. So after
    [memoized.expire(t)], which leaves the cache untouched, an entry is
    returned or removed by [get], and the oldest entry is kept or evicted
    by [set], according to [t]; before the call it was according to the
    former time-to-live. *)
Theorem expiry_is_decided_by_the_current_ttl
        (t now date stamp : Z) (s : state) (key : string) (e : entry)
        (oldest other : string) (e0 : entry) (rest : Map) (v : value) :
  Map_get key (_cache s) = Some e ->
  _cache s = (oldest, e0) :: rest ->
  distinct_keys (_cache s) ->
  Map_size (_cache s) <= _limit s ->
  other <> oldest ->
  let s' := snd (expire (AVal (VNum t)) s) in
  _cache s' = _cache s /\
  _time s' = t /\
  fst (get key now s) = Ok (if expire_of e + _time s >? now then value_of e else VUndefined) /\
  fst (get key now s') = Ok (if expire_of e + t >? now then value_of e else VUndefined) /\
  _cache (snd (get key now s'))
    = (if expire_of e + t >? now then _cache s else Map_delete key (_cache s)) /\
  Map_get oldest (_cache (snd (set other v date stamp s)))
    = (if expire_of e0 + _time s <? date then None else Some e0) /\
  Map_get oldest (_cache (snd (set other v date stamp s')))
    = (if expire_of e0 + t <? date then None else Some e0).
Proof.
  intros Hget Hc Hnd Hsize Hne. cbn zeta.
  change (snd (expire (AVal (VNum t)) s)) with (with_time t s).
  split; [reflexivity|]. split; [reflexivity|]. split; [|split; [|split; [|split]]].
  - unfold get. rewrite Hget. now destruct (expire_of e + _time s >? now).
  - unfold get. cbn [_cache _time with_time]. rewrite Hget.
    now destruct (expire_of e + t >? now).
  - unfold get. cbn [_cache _time with_time]. rewrite Hget.
    now destruct (expire_of e + t >? now).
  - now apply (set_decides_oldest other oldest v date stamp s e0 rest).
  - now apply (set_decides_oldest other oldest v date stamp (with_time t s) e0 rest).
Qed.

Lemma expiry_is_decided_by_the_current_ttl_witness :
  fst (get alice_key 50 stale_state) = Ok VUndefined /\
  fst (get alice_key 50 (snd (expire (AVal (VNum 100)) stale_state))) = Ok (VStr "Alice") /\
  Map_get alice_key (_cache (snd (set bob_key (VStr "Bob") 50 50 stale_state))) = None /\
  Map_get alice_key
    (_cache (snd (set bob_key (VStr "Bob") 50 50 (snd (expire (AVal (VNum 100)) stale_state)))))
  = Some sample_entry.
Proof.
  destruct (expiry_is_decided_by_the_current_ttl
              100 50 50 50 stale_state alice_key sample_entry
              alice_key bob_key sample_entry [] (VStr "Bob"))
    as (_ & _ & Hold & Hnew & _ & Hevict & Hkeep).
  - reflexivity.
  - reflexivity.
  - repeat constructor. intros [].
  - vm_compute. discriminate.
  - intros H. vm_compute in H. discriminate H.
  - repeat split; assumption.
Defined.

(** C10. When the resolution that [_LAZYIQL] and [_LAZYIQL_LIST] run
    yields no values, the former returns [undefined] and the latter the
    empty string; and calls of [LAZYIQL] and [LAZYIQL_LIST] with the same
    arguments, made on a cache that holds nothing truthy for them, each
    return that value and each run the resolution again, however many
    times they are made. *)
Theorem empty_resolution_is_recomputed_on_every_call
        (fetch_json : string -> result value)
        (encodeURIComponent : string -> string)
        (StringToNumber : string -> option Z)
        (JSON_stringify : list value -> string)
        (iql_search attribute object_name schema_id : value)
        (times : list (Z * Z * Z)) (s : state) :
  getLazyIQL fetch_json encodeURIComponent StringToNumber
             iql_search attribute VUndefined VUndefined = Ok [] ->
  no_truthy_entry (JSON_stringify [iql_search; attribute; object_name; schema_id]) s ->
  let lazyiql :=
    LAZYIQL fetch_json encodeURIComponent StringToNumber JSON_stringify
            iql_search attribute object_name schema_id in
  let lazyiql_list :=
    LAZYIQL_LIST fetch_json encodeURIComponent StringToNumber JSON_stringify
                 iql_search attribute object_name schema_id in
  _LAZYIQL fetch_json encodeURIComponent StringToNumber
           iql_search attribute object_name schema_id = Ok VUndefined /\
  _LAZYIQL_LIST fetch_json encodeURIComponent StringToNumber
                iql_search attribute object_name schema_id = Ok (VStr "") /\
  fst (repeat_call lazyiql times s) = Ok (repeat VUndefined (List.length times)) /\
  invocations (new_events s (snd (repeat_call lazyiql times s))) = List.length times /\
  fst (repeat_call lazyiql_list times s) = Ok (repeat (VStr "") (List.length times)) /\
  invocations (new_events s (snd (repeat_call lazyiql_list times s))) = List.length times.
Proof.
  intros Hempty Hno. cbn zeta.
  assert (H1 : _LAZYIQL fetch_json encodeURIComponent StringToNumber
                        iql_search attribute object_name schema_id = Ok VUndefined).
  { unfold _LAZYIQL. now rewrite Hempty. }
  assert (H2 : _LAZYIQL_LIST fetch_json encodeURIComponent StringToNumber
                             iql_search attribute object_name schema_id = Ok (VStr "")).
  { unfold _LAZYIQL_LIST. now rewrite Hempty. }
  split; [exact H1|]. split; [exact H2|].
  unfold LAZYIQL, LAZYIQL_LIST, MEMOIZED_IQL, MEMOIZED_IQL_LIST.
  pose proof (repeated_falsy_calls JSON_stringify
                (positional (_LAZYIQL fetch_json encodeURIComponent StringToNumber))
                [iql_search; attribute; object_name; schema_id] VUndefined times
                H1 eq_refl s Hno) as [Ha Hb].
  pose proof (repeated_falsy_calls JSON_stringify
                (positional (_LAZYIQL_LIST fetch_json encodeURIComponent StringToNumber))
                [iql_search; attribute; object_name; schema_id] (VStr "") times
                H2 eq_refl s Hno) as [Hc Hd].
  repeat split; assumption.
Qed.

Lemma empty_resolution_is_recomputed_on_every_call_witness :
  let lazyiql_list :=
    LAZYIQL_LIST lenient_server sample_encodeURIComponent sample_StringToNumber
                 sample_stringify (VStr "Server") (VStr "Owner") (VStr "Server") (VStr "10") in
  _LAZYIQL lenient_server sample_encodeURIComponent sample_StringToNumber
           (VStr "Server") (VStr "Owner") (VStr "Server") (VStr "10") = Ok VUndefined /\
  fst (repeat_call lazyiql_list [(0, 0, 0); (1, 1, 1); (2, 2, 2)] (initial_state None))
    = Ok [VStr ""%string; VStr ""%string; VStr ""%string] /\
  invocations
    (new_events (initial_state None)
       (snd (repeat_call lazyiql_list [(0, 0, 0); (1, 1, 1); (2, 2, 2)] (initial_state None))))
    = 3%nat.
Proof.
  destruct (empty_resolution_is_recomputed_on_every_call
              lenient_server sample_encodeURIComponent sample_StringToNumber sample_stringify
              (VStr "Server") (VStr "Owner") (VStr "Server") (VStr "10")
              [(0, 0, 0); (1, 1, 1); (2, 2, 2)] (initial_state None))
    as (H1 & _ & _ & _ & H5 & H6).
  - vm_compute. reflexivity.
  - exact I.
  - repeat split; assumption.
Defined.

(** ** Further properties of the cache *)

(** The loop of [set] when no entry is expired: it deletes from the front
    until the size is within the limit. *)
Lemma set_loop_live (date : Z) (entries : Map) :
  forall s,
    _cache s = entries ->
    Forall (fun p => date <= expire_of (snd p) + _time s) entries ->
    exists s',
      set_loop entries date s = (Ok tt, s') /\
      _limit s' = _limit s /\ _time s' = _time s /\
      _cache s' = skipn (Z.to_nat (Map_size entries - Z.max (_limit s) 0)) entries.
Proof.
  induction entries as [|[k e] rest IH]; intros s Hs Hlive.
  - exists s. cbn. rewrite skipn_nil. now rewrite Hs.
  - inversion Hlive as [|? ? He Hrest]; subst. cbn [snd] in He.
    cbn [set_loop].
    assert (Hexp : (expire_of e + _time s <? date) = false) by lia.
    rewrite Hexp, orb_false_r.
    destruct (Map_size (_cache s) >? _limit s) eqn:Hover.
    + unfold bind. rewrite remove_eq. rewrite Hs. cbn [Map_delete].
      rewrite String.eqb_refl.
      set (s1 := mkState _ _ rest _ _).
      destruct (IH s1 eq_refl Hrest) as (s' & Hrun & Hl & Ht & Hc).
      exists s'. split; [exact Hrun|]. split; [exact Hl|]. split; [exact Ht|].
      rewrite Hc. subst s1. cbn [_limit]. rewrite Hs in Hover.
      apply Z.gtb_lt in Hover. unfold Map_size in *. cbn [List.length] in *.
      replace (Z.to_nat (Z.of_nat (S (List.length rest)) - Z.max (_limit s) 0))
        with (S (Z.to_nat (Z.of_nat (List.length rest) - Z.max (_limit s) 0))) by lia.
      reflexivity.
    + exists s. split; [reflexivity|]. split; [reflexivity|]. split; [reflexivity|].
      rewrite Hs in Hover.
      assert (Hle : Map_size ((k, e) :: rest) <= _limit s) by lia.
      unfold Map_size in *. cbn [List.length] in *.
      replace (Z.to_nat (Z.of_nat (S (List.length rest)) - Z.max (_limit s) 0))
        with 0%nat by lia.
      exact Hs.
Qed.

(** X1. When no entry is expired, an insertion keeps the newest
    [max(limit, 0)] entries of the cache (all of them when there are
    fewer), deleting the others from the oldest on, and then puts the new
    entry under its key. *)
Theorem set_keeps_the_newest_entries (key : string) (v : value) (date stamp : Z) (s : state) :
  Forall (fun p => date <= expire_of (snd p) + _time s) (_cache s) ->
  _cache (snd (set key v date stamp s)) =
  Map_set key (mkEntry v stamp)
          (skipn (Z.to_nat (Map_size (_cache s) - Z.max (_limit s) 0)) (_cache s)).
Proof.
  intros Hlive.
  destruct (set_loop_live date (_cache s) s eq_refl Hlive) as (s' & Hrun & _ & _ & Hc).
  rewrite set_unfold, Hrun. cbn [snd _cache]. now rewrite Hc.
Qed.

Lemma set_keeps_the_newest_entries_witness :
  _cache (snd (set (sample_stringify [VStr "Dave"]) (VStr "Dave") 3 3 crowded_state)) =
  [(bob_key, mkEntry (VStr "Bob") 1);
   (carol_key, mkEntry (VStr "Carol") 2);
   (sample_stringify [VStr "Dave"], mkEntry (VStr "Dave") 3)].
Proof.
  rewrite (set_keeps_the_newest_entries
             (sample_stringify [VStr "Dave"]) (VStr "Dave") 3 3 crowded_state).
  - reflexivity.
  - repeat constructor; vm_compute; discriminate.
Defined.

(** X2. Expiry is lazy: when the cache is within its limit and its oldest
    entry is not expired, an insertion evicts nothing, whatever the age of
    the entries behind the oldest one; it writes the blob once. *)
Theorem set_stops_at_a_live_oldest_entry
        (key oldest : string) (v : value) (date stamp : Z) (s : state)
        (e0 : entry) (rest : Map) :
  _cache s = (oldest, e0) :: rest ->
  Map_size (_cache s) <= _limit s ->
  date <= expire_of e0 + _time s ->
  _cache (snd (set key v date stamp s)) = Map_set key (mkEntry v stamp) (_cache s) /\
  new_events s (snd (set key v date stamp s))
    = [CacheServicePut (Map_set key (mkEntry v stamp) (_cache s))].
Proof.
  intros Hc Hsize Hlive.
  assert (Hloop : set_loop (_cache s) date s = (Ok tt, s)).
  { rewrite Hc at 1. cbn [set_loop].
    assert (H1 : (Map_size (_cache s) >? _limit s) = false) by lia.
    assert (H2 : (expire_of e0 + _time s <? date) = false) by lia.
    now rewrite H1, H2. }
  rewrite set_unfold, Hloop. cbn [snd _cache]. split; [reflexivity|].
  apply new_events_app. reflexivity.
Qed.

Lemma set_stops_at_a_live_oldest_entry_witness :
  let s := mkState 1000 10
                   [(alice_key, mkEntry (VStr "Alice") 95); (bob_key, mkEntry (VStr "Bob") 0)]
                   None [CacheServiceGet] in
  Map_get bob_key (_cache (snd (set carol_key (VStr "Carol") 100 100 s)))
  = Some (mkEntry (VStr "Bob") 0).
Proof.
  cbn zeta.
  destruct (set_stops_at_a_live_oldest_entry
              carol_key alice_key (VStr "Carol") 100 100
              (mkState 1000 10
                 [(alice_key, mkEntry (VStr "Alice") 95); (bob_key, mkEntry (VStr "Bob") 0)]
                 None [CacheServiceGet])
              (mkEntry (VStr "Alice") 95) [(bob_key, mkEntry (VStr "Bob") 0)])
    as [Hc _].
  - reflexivity.
  - vm_compute. discriminate.
  - vm_compute. discriminate.
  - rewrite Hc. reflexivity.
Defined.

(** X3. A limit of zero or less does not switch the cache off: every
    insertion first deletes all entries and then stores the new one, so
    the cache holds exactly that entry. *)
Theorem set_with_no_room_keeps_only_the_new_entry
        (key : string) (v : value) (date stamp : Z) (s : state) :
  _limit s <= 0 ->
  _cache (snd (set key v date stamp s)) = [(key, mkEntry v stamp)].
Proof.
  intros Hlimit.
  destruct (set_eq key v date stamp s) as (dropped & kept & evs & _ & Hrun & _ & _ & Hstop).
  rewrite Hrun. cbn [snd _cache].
  destruct kept as [|[k e] rest]; [reflexivity|].
  destruct Hstop as [Hsize _]. unfold Map_size in Hsize. cbn [List.length] in Hsize. lia.
Qed.

Lemma set_with_no_room_keeps_only_the_new_entry_witness :
  _cache (snd (set bob_key (VStr "Bob") 5 5 (snd (limit (AVal (VNum 0)) stale_state))))
  = [(bob_key, mkEntry (VStr "Bob") 5)].
Proof.
  apply (set_with_no_room_keeps_only_the_new_entry
           bob_key (VStr "Bob") 5 5 (snd (limit (AVal (VNum 0)) stale_state))).
  vm_compute. discriminate.
Defined.

(** X4. At the instant [expire + _time] the two tests disagree: [get]
    takes the entry for expired and removes it, while the loop of [set]
    takes it for live and keeps it. *)
Theorem get_and_set_disagree_at_the_deadline
        (oldest other : string) (v : value) (now stamp : Z) (s : state)
        (e0 : entry) (rest : Map) :
  _cache s = (oldest, e0) :: rest ->
  distinct_keys (_cache s) ->
  Map_size (_cache s) <= _limit s ->
  other <> oldest ->
  now = expire_of e0 + _time s ->
  get oldest now s = (Ok VUndefined, snd (remove oldest s)) /\
  _cache (snd (get oldest now s)) = rest /\
  Map_get oldest (_cache (snd (set other v now stamp s))) = Some e0.
Proof.
  intros Hc Hnd Hsize Hne Hnow.
  assert (Hget : Map_get oldest (_cache s) = Some e0).
  { rewrite Hc. cbn. now rewrite String.eqb_refl. }
  assert (Hg : get oldest now s = (Ok VUndefined, snd (remove oldest s))).
  { apply (get_expired _ _ _ e0 Hget). lia. }
  split; [exact Hg|]. split.
  - rewrite Hg, remove_eq. cbn [snd _cache]. rewrite Hc. cbn. now rewrite String.eqb_refl.
  - rewrite (set_decides_oldest other oldest v now stamp s e0 rest Hc Hnd Hsize Hne).
    assert (H : (expire_of e0 + _time s <? now) = false) by lia.
    now rewrite H.
Qed.

Lemma get_and_set_disagree_at_the_deadline_witness :
  _cache (snd (get alice_key 10 stale_state)) = [] /\
  Map_get alice_key (_cache (snd (set bob_key (VStr "Bob") 10 10 stale_state)))
  = Some sample_entry.
Proof.
  destruct (get_and_set_disagree_at_the_deadline
              alice_key bob_key (VStr "Bob") 10 10 stale_state sample_entry [])
    as (_ & Hg & Hs).
  - reflexivity.
  - repeat constructor. intros [].
  - vm_compute. discriminate.
  - intros H. vm_compute in H. discriminate H.
  - reflexivity.
  - split; assumption.
Defined.

Lemma Map_set_keys (k k' : string) (e : entry) (m : Map) :
  In k' (map fst (Map_set k e m)) <-> k' = k \/ In k' (map fst m).
Proof.
  induction m as [|[k0 e0] rest IH]; cbn.
  - intuition.
  - destruct (String.eqb k k0) eqn:E; cbn.
    + apply String.eqb_eq in E. subst k0. intuition.
    + rewrite IH. intuition.
Qed.

Lemma Map_set_distinct (k : string) (e : entry) (m : Map) :
  distinct_keys m -> distinct_keys (Map_set k e m).
Proof.
  unfold distinct_keys. induction m as [|[k0 e0] rest IH]; cbn; intros Hnd.
  - repeat constructor. intros [].
  - inversion Hnd as [|? ? Hnotin Hrest]; subst.
    destruct (String.eqb k k0) eqn:E; cbn.
    + apply String.eqb_eq in E. subst k0. now constructor.
    + constructor; [|now apply IH].
      rewrite Map_set_keys. intros [->|Hin]; [|contradiction].
      now rewrite String.eqb_refl in E.
Qed.

Lemma Map_delete_keys (k k' : string) (m : Map) :
  In k' (map fst (Map_delete k m)) -> In k' (map fst m).
Proof.
  induction m as [|[k0 e0] rest IH]; cbn; [tauto|].
  destruct (String.eqb k k0); cbn; intuition.
Qed.

Lemma Map_delete_distinct (k : string) (m : Map) :
  distinct_keys m -> distinct_keys (Map_delete k m).
Proof.
  unfold distinct_keys. induction m as [|[k0 e0] rest IH]; cbn; intros Hnd.
  - constructor.
  - inversion Hnd as [|? ? Hnotin Hrest]; subst.
    destruct (String.eqb k k0); cbn; [exact Hrest|].
    constructor; [|now apply IH].
    intros Hin. apply Hnotin. now apply (Map_delete_keys k).
Qed.

Lemma distinct_keys_suffix (dropped kept : Map) :
  distinct_keys (dropped ++ kept) -> distinct_keys kept.
Proof.
  unfold distinct_keys. induction dropped as [|p dropped IH]; cbn; intros Hnd.
  - exact Hnd.
  - inversion Hnd; subst. now apply IH.
Qed.

(** [new Map(pairs)] has each key once, whatever the pairs. *)
Lemma Map_of_distinct (pairs : list (string * entry)) : distinct_keys (Map_of pairs).
Proof.
  unfold Map_of.
  assert (G : forall acc, distinct_keys acc ->
            distinct_keys (fold_left (fun m p => Map_set (fst p) (snd p) m) pairs acc)).
  { induction pairs as [|[k e] rest IH]; intros acc Hacc; cbn.
    - exact Hacc.
    - apply IH. now apply Map_set_distinct. }
  apply G. constructor.
Qed.

(** [new Map(pairs)] is [pairs] itself when they have distinct keys. *)
Lemma Map_of_same (m : Map) : distinct_keys m -> Map_of m = m.
Proof.
  unfold Map_of.
  assert (G : forall acc, distinct_keys (acc ++ m) ->
            fold_left (fun m p => Map_set (fst p) (snd p) m) m acc = acc ++ m).
  { induction m as [|[k e] rest IH]; intros acc Hnd; cbn.
    - now rewrite app_nil_r.
    - rewrite Map_set_fresh.
      + rewrite IH; rewrite <- app_assoc; [reflexivity | exact Hnd].
      + apply Map_get_absent. unfold distinct_keys in Hnd.
        rewrite map_app in Hnd. cbn in Hnd. apply NoDup_remove_2 in Hnd.
        intros Hin. apply Hnd. apply in_or_app. now left. }
  intros Hnd. exact (G [] Hnd).
Qed.

(** [get] returns without an exception and leaves the cache as it was or
    without the entry of [key]. *)
Lemma get_outcome (key : string) (now : Z) (s : state) :
  exists r s1,
    get key now s = (Ok r, s1) /\
    _limit s1 = _limit s /\ _time s1 = _time s /\
    (_cache s1 = _cache s \/ _cache s1 = Map_delete key (_cache s)).
Proof.
  destruct (Map_get key (_cache s)) as [e|] eqn:Hget.
  - destruct (Z_lt_le_dec now (expire_of e + _time s)) as [Hlive|Hdead].
    + rewrite (get_live _ _ _ _ Hget Hlive). eexists _, _. split; [reflexivity|].
      cbn. auto.
    + rewrite (get_expired _ _ _ _ Hget Hdead), remove_eq. eexists _, _.
      split; [reflexivity|]. cbn. auto.
  - rewrite (get_absent _ _ _ Hget). eexists _, _. split; [reflexivity|]. auto.
Qed.

Section MemoizedFurther.

Variable JSON_stringify : list value -> string.
Variable fn : list value -> result value.

Local Abbreviation memoized := (memoized JSON_stringify fn).

Lemma memoized_unfold (args : list value) (t_get t_date t_stamp : Z) (s : state) :
  memoized args t_get t_date t_stamp s =
  match get (JSON_stringify args) t_get s with
  | (Ok hit, s1) =>
      if truthy hit then (Ok hit, s1)
      else match fn args with
           | Ok v => set (JSON_stringify args) v t_date t_stamp (emit (Apply args) s1)
           | Throw e => (Throw e, emit (Apply args) s1)
           end
  | (Throw e, s1) => (Throw e, s1)
  end.
Proof.
  unfold memoized, bind, apply_fn.
  destruct (get (JSON_stringify args) t_get s) as [[hit|e] s1]; [|reflexivity].
  destruct (truthy hit); [reflexivity|].
  destruct (fn args); reflexivity.
Qed.

(** A call keeps the keys of the cache distinct, and the limit and the
    time-to-live as they are. *)
Lemma memoized_keeps_distinct_keys (args : list value) (t_get t_date t_stamp : Z) (s : state) :
  distinct_keys (_cache s) ->
  distinct_keys (_cache (snd (memoized args t_get t_date t_stamp s))) /\
  _limit (snd (memoized args t_get t_date t_stamp s)) = _limit s /\
  _time (snd (memoized args t_get t_date t_stamp s)) = _time s.
Proof.
  intros Hnd. rewrite memoized_unfold.
  destruct (get_outcome (JSON_stringify args) t_get s) as (r & s1 & Hg & Hl & Ht & Hc).
  rewrite Hg.
  assert (Hnd1 : distinct_keys (_cache s1)).
  { destruct Hc as [-> | ->]; [exact Hnd | now apply Map_delete_distinct]. }
  destruct (truthy r); [now cbn|].
  destruct (fn args) as [v|e]; [|now cbn].
  destruct (set_eq (JSON_stringify args) v t_date t_stamp (emit (Apply args) s1))
    as (dropped & kept & evs & Hsplit & Hrun & _).
  rewrite Hrun. cbn [snd _cache _limit _time emit]. cbn in Hsplit.
  split; [|now split].
  apply Map_set_distinct. apply (distinct_keys_suffix dropped). now rewrite <- Hsplit.
Qed.

(** X5. A first call that goes to [fn] and gets a truthy value stores it
    under the serialization of its arguments. A second call before
    [stamp + _time], with these arguments or with others that serialize to
    the same key, returns that value and does nothing but log the hit:
    [fn] is not called, and the cache, the stamp of the entry and the blob
    stay as they are. *)
Theorem second_call_within_ttl_is_served_from_cache
        (args args' : list value) (t_get t_date t_stamp t_get' t_date' t_stamp' : Z)
        (s : state) (v : value) :
  fn args = Ok v ->
  truthy v = true ->
  no_truthy_entry (JSON_stringify args) s \/
  (exists e, Map_get (JSON_stringify args) (_cache s) = Some e /\
             expire_of e + _time s <= t_get) ->
  JSON_stringify args' = JSON_stringify args ->
  t_get' < t_stamp + _time s ->
  let s1 := snd (memoized args t_get t_date t_stamp s) in
  fst (memoized args t_get t_date t_stamp s) = Ok v /\
  memoized args' t_get' t_date' t_stamp' s1
  = (Ok v, emit (LoggerLog "Using memoized function.") s1).
Proof.
  intros Hfn Htruthy Hfall Hkey Hlive. cbn zeta.
  destruct (memoized_falls_through JSON_stringify fn args t_get t_date t_stamp s Hfall)
    as (s0 & evs0 & Hrun0 & _ & Ht0 & _).
  destruct (apply_and_set_eq fn args (JSON_stringify args) t_date t_stamp s0)
    as (s' & evs & Hrun & _ & Ht & _ & _ & Hentry).
  rewrite Hrun0, Hrun, Hfn. cbn [fst snd]. split; [reflexivity|].
  apply (memoized_truthy_hit JSON_stringify fn args' t_get' t_date' t_stamp' s'
           (mkEntry v t_stamp)).
  - rewrite Hkey. exact (Hentry v Hfn).
  - cbn [expire_of]. rewrite Ht, Ht0. exact Hlive.
  - exact Htruthy.
Qed.

(** X6. After [flush] a call always goes to [fn], once, and returns what
    [fn] returns. *)
Theorem call_after_flush_goes_to_fn (args : list value) (t_get t_date t_stamp : Z) (s : state) :
  let s0 := snd (flush s) in
  fst (memoized args t_get t_date t_stamp s0) = fn args /\
  invocations (new_events s0 (snd (memoized args t_get t_date t_stamp s0))) = 1%nat.
Proof.
  cbn zeta. set (s0 := snd (flush s)).
  assert (Hno : no_truthy_entry (JSON_stringify args) s0) by exact I.
  destruct (memoized_falls_through JSON_stringify fn args t_get t_date t_stamp s0
              (or_introl Hno))
    as (s1 & evs1 & Hrun1 & _ & _ & Htrace1 & Hnoapply & _).
  destruct (apply_and_set_eq fn args (JSON_stringify args) t_date t_stamp s1)
    as (s' & evs & Hrun & _ & _ & Htrace & Hputs & _).
  rewrite Hrun1, Hrun. cbn [fst snd]. split; [reflexivity|].
  rewrite (new_events_app s0 s' (evs1 ++ Apply args :: evs)).
  - unfold invocations. rewrite filter_app, Hnoapply. cbn.
    now rewrite (puts_are_not_applies _ Hputs).
  - rewrite Htrace, Htrace1. now rewrite <- app_assoc.
Qed.

(** X7. An exception of [fn] leaves the call with that exception and is
    not cached. The call changes the cache in one case only: when the key
    had an expired entry, [get] has removed it and written the blob
    without it before [fn] was called. When the key had no entry, or a
    live entry with a falsy value, the cache and the blob are as before
    the call. In no case is an entry inserted or the blob written after
    the call of [fn]. *)
Theorem exception_of_fn_is_not_cached
        (args : list value) (t_get t_date t_stamp : Z) (s : state) (e : error) :
  fn args = Throw e ->
  no_truthy_entry (JSON_stringify args) s \/
  (exists e0, Map_get (JSON_stringify args) (_cache s) = Some e0 /\
              expire_of e0 + _time s <= t_get) ->
  let s' := snd (memoized args t_get t_date t_stamp s) in
  fst (memoized args t_get t_date t_stamp s) = Throw e /\
  _limit s' = _limit s /\
  _time s' = _time s /\
  match Map_get (JSON_stringify args) (_cache s) with
  | Some e0 =>
      if expire_of e0 + _time s >? t_get
      then _cache s' = _cache s /\
           cache_service s' = cache_service s /\
           new_events s s' = [LoggerLog "Using memoized function."; Apply args]
      else _cache s' = Map_delete (JSON_stringify args) (_cache s) /\
           cache_service s' = Some (Map_delete (JSON_stringify args) (_cache s)) /\
           new_events s s'
           = [CacheServicePut (Map_delete (JSON_stringify args) (_cache s)); Apply args]
  | None =>
      _cache s' = _cache s /\
      cache_service s' = cache_service s /\
      new_events s s' = [Apply args]
  end.
Proof.
  intros Hfn Hfall. cbn zeta. rewrite memoized_unfold.
  destruct (Map_get (JSON_stringify args) (_cache s)) as [e0|] eqn:Hget.
  - destruct (expire_of e0 + _time s >? t_get) eqn:Hcmp.
    + assert (Hlive : t_get < expire_of e0 + _time s) by lia.
      assert (Hf : truthy (value_of e0) = false).
      { destruct Hfall as [Hno|(e1 & He1 & Hdead)].
        - unfold no_truthy_entry in Hno. now rewrite Hget in Hno.
        - injection He1 as <-. lia. }
      rewrite (get_live _ _ _ _ Hget Hlive), Hf, Hfn. cbn [fst snd].
      repeat split. apply new_events_app. cbn. now rewrite <- app_assoc.
    + assert (Hdead : expire_of e0 + _time s <= t_get) by lia.
      rewrite (get_expired _ _ _ _ Hget Hdead), remove_eq. cbn [snd truthy].
      rewrite Hfn. cbn [fst snd].
      repeat split. apply new_events_app. cbn. now rewrite <- app_assoc.
  - rewrite (get_absent _ _ _ Hget). cbn [truthy]. rewrite Hfn. cbn [fst snd].
    repeat split. apply new_events_app. reflexivity.
Qed.

End MemoizedFurther.

Lemma second_call_within_ttl_is_served_from_cache_witness :
  let s1 := snd (memoized stringify_with_nulls first_argument
                   [VStr "Alice"; VUndefined] 0 1 2 behind_state) in
  fst (memoized stringify_with_nulls first_argument [VStr "Alice"; VUndefined] 0 1 2
         behind_state) = Ok (VStr "Alice") /\
  memoized stringify_with_nulls first_argument [VStr "Alice"; VNull] 500 501 502 s1
    = (Ok (VStr "Alice"), emit (LoggerLog "Using memoized function.") s1).
Proof.
  apply (second_call_within_ttl_is_served_from_cache
           stringify_with_nulls first_argument
           [VStr "Alice"; VUndefined] [VStr "Alice"; VNull]
           0 1 2 500 501 502 behind_state (VStr "Alice")).
  - reflexivity.
  - reflexivity.
  - left. exact I.
  - reflexivity.
  - vm_compute. reflexivity.
Defined.

Lemma exception_of_fn_is_not_cached_witness :
  let failing := fun _ : list value => @Throw value (HostError "Address unavailable") in
  let s' := snd (memoized sample_stringify failing [VStr "Alice"] 10 11 12 stale_state) in
  fst (memoized sample_stringify failing [VStr "Alice"] 10 11 12 stale_state)
    = Throw (HostError "Address unavailable") /\
  _cache s' = [] /\
  cache_service s' = Some [] /\
  new_events stale_state s' = [CacheServicePut []; Apply [VStr "Alice"]].
Proof.
  cbn zeta.
  destruct (exception_of_fn_is_not_cached
              sample_stringify
              (fun _ : list value => @Throw value (HostError "Address unavailable"))
              [VStr "Alice"] 10 11 12 stale_state (HostError "Address unavailable"))
    as (Hr & _ & _ & Hc & Hb & Hev).
  - reflexivity.
  - right. exists sample_entry. split; [reflexivity | vm_compute; discriminate].
  - split; [exact Hr|]. split; [exact Hc|]. split; [exact Hb | exact Hev].
Defined.

Lemma Map_delete_length (k : string) (m : Map) :
  (List.length (Map_delete k m) <= List.length m)%nat.
Proof.
  induction m as [|[k0 e0] rest IH]; cbn; [lia|].
  destruct (String.eqb k k0); cbn; lia.
Qed.

(** A call leaves at most one entry more than the limit, or no more
    entries than there were. *)
Lemma memoized_size (JSON_stringify : list value -> string)
      (fn : list value -> result value)
      (args : list value) (t_get t_date t_stamp : Z) (s : state) :
  Map_size (_cache (snd (memoized JSON_stringify fn args t_get t_date t_stamp s)))
  <= Z.max (Z.max (_limit s) 0 + 1) (Map_size (_cache s)).
Proof.
  rewrite memoized_unfold.
  destruct (get_outcome (JSON_stringify args) t_get s) as (r & s1 & Hg & Hl & _ & Hc).
  rewrite Hg.
  assert (Hsize1 : Map_size (_cache s1) <= Map_size (_cache s)).
  { unfold Map_size. destruct Hc as [-> | ->]; [lia|].
    pose proof (Map_delete_length (JSON_stringify args) (_cache s)). lia. }
  destruct (truthy r); [cbn [snd]; lia|].
  destruct (fn args) as [v|e]; [|cbn [snd _cache emit]; lia].
  pose proof (set_size_bound (JSON_stringify args) v t_date t_stamp (emit (Apply args) s1))
    as Hb.
  cbn [_limit emit] in Hb. rewrite Hl in Hb. lia.
Qed.

Lemma call_sequence_invariants (JSON_stringify : list value -> string)
      (fn : list value -> result value)
      (calls : list (list value * (Z * Z * Z))) :
  forall s,
    distinct_keys (_cache s) ->
    let s' := call_sequence (memoized JSON_stringify fn) calls s in
    distinct_keys (_cache s') /\
    _limit s' = _limit s /\ _time s' = _time s /\
    Map_size (_cache s') <= Z.max (Z.max (_limit s) 0 + 1) (Map_size (_cache s)).
Proof.
  induction calls as [|[args [[t_get t_date] t_stamp]] rest IH]; intros s Hnd; cbn zeta.
  - cbn. repeat split; auto. lia.
  - cbn [call_sequence].
    destruct (memoized_keeps_distinct_keys JSON_stringify fn args t_get t_date t_stamp s Hnd)
      as (Hnd1 & Hl1 & Ht1).
    pose proof (memoized_size JSON_stringify fn args t_get t_date t_stamp s) as Hs1.
    destruct (IH _ Hnd1) as (Hnd' & Hl' & Ht' & Hs').
    rewrite Hl1 in Hl', Hs'. rewrite Ht1 in Ht'.
    repeat split; auto. lia.
Qed.

(** X8. Whatever blob a closure was loaded from and whatever calls are
    then made in whatever order, its cache has each key once, the limit
    and the time-to-live stay at their defaults of 1000 entries and 24 h,
    and the cache holds at most 1001 entries or as many as were loaded. *)
Theorem closure_invariants
        (JSON_stringify : list value -> string) (f : arg)
        (fn : list value -> result value) (blob : option Map)
        (calls : list (list value * (Z * Z * Z))) :
  let s0 := snd (memoize f blob) in
  let s' := call_sequence (memoized JSON_stringify fn) calls s0 in
  distinct_keys (_cache s') /\
  _limit s' = 1000 /\
  _time s' = 86400000 /\
  Map_size (_cache s') <= Z.max 1001 (Map_size (_cache s0)).
Proof.
  cbn zeta.
  assert (Hnd : distinct_keys (_cache (snd (memoize f blob)))).
  { destruct f; cbn; (destruct blob; [apply Map_of_distinct | constructor]). }
  destruct (call_sequence_invariants JSON_stringify fn calls _ Hnd) as (H1 & H2 & H3 & H4).
  split; [exact H1|]. split; [|split].
  - rewrite H2. now destruct f.
  - rewrite H3. now destruct f.
  - replace (_limit (snd (memoize f blob))) with 1000 in H4 by now destruct f.
    exact H4.
Qed.

Lemma get_finds_nothing_truthy (key : string) (now : Z) (s s1 : state) (r : value) :
  no_truthy_entry key s -> get key now s = (Ok r, s1) -> truthy r = false.
Proof.
  unfold no_truthy_entry, get. intros Hno Hg.
  destruct (Map_get key (_cache s)) as [e|].
  - destruct (expire_of e + _time s >? now); injection Hg as <- _; [exact Hno|reflexivity].
  - now injection Hg as <- _.
Qed.

(** A call that goes to [fn] and gets a value leaves it under the key,
    stamped, in a cache that is also the blob. *)
Lemma memoized_miss_stores (JSON_stringify : list value -> string)
      (fn : list value -> result value)
      (args : list value) (t_get t_date t_stamp : Z) (s : state) (v : value) :
  fn args = Ok v ->
  no_truthy_entry (JSON_stringify args) s ->
  distinct_keys (_cache s) ->
  let s' := snd (memoized JSON_stringify fn args t_get t_date t_stamp s) in
  cache_service s' = Some (_cache s') /\
  distinct_keys (_cache s') /\
  Map_get (JSON_stringify args) (_cache s') = Some (mkEntry v t_stamp).
Proof.
  intros Hfn Hno Hnd. cbn zeta.
  destruct (memoized_keeps_distinct_keys JSON_stringify fn args t_get t_date t_stamp s Hnd)
    as (Hnd' & _ & _).
  split; [|split; [exact Hnd'|]]; clear Hnd'; rewrite memoized_unfold;
    destruct (get_outcome (JSON_stringify args) t_get s) as (r & s1 & Hg & _ & _ & _);
    rewrite Hg, (get_finds_nothing_truthy _ _ _ _ _ Hno Hg), Hfn;
    destruct (set_eq (JSON_stringify args) v t_date t_stamp (emit (Apply args) s1))
      as (dropped & kept & evs & _ & Hrun & _);
    rewrite Hrun; cbn [snd cache_service _cache].
  - reflexivity.
  - apply Map_get_set_same.
Qed.

(** X9. [MEMOIZED_IQL] and [MEMOIZED_IQL_LIST] share the blob and build the
    same key from the same arguments. So what [LAZYIQL_LIST] stored, a
    non-empty joined list, is what [LAZYIQL] returns for these arguments
    on a closure loaded afterwards, within 24 h of the insertion: the
    joined list and not the first value, without a call of [_LAZYIQL]. *)
Theorem LAZYIQL_returns_what_LAZYIQL_LIST_stored
        (fetch_json : string -> result value)
        (encodeURIComponent : string -> string)
        (StringToNumber : string -> option Z)
        (JSON_stringify : list value -> string)
        (iql_search attribute object_name schema_id : value)
        (t_get t_date t_stamp t_get' t_date' t_stamp' : Z)
        (s : state) (joined : string) :
  _LAZYIQL_LIST fetch_json encodeURIComponent StringToNumber
                iql_search attribute object_name schema_id = Ok (VStr joined) ->
  joined <> ""%string ->
  distinct_keys (_cache s) ->
  no_truthy_entry (JSON_stringify [iql_search; attribute; object_name; schema_id]) s ->
  t_get' < t_stamp + 86400000 ->
  let s_list :=
    snd (LAZYIQL_LIST fetch_json encodeURIComponent StringToNumber JSON_stringify
           iql_search attribute object_name schema_id t_get t_date t_stamp s) in
  let s_iql :=
    snd (memoize (AFun (positional (_LAZYIQL fetch_json encodeURIComponent StringToNumber)))
           (cache_service s_list)) in
  LAZYIQL fetch_json encodeURIComponent StringToNumber JSON_stringify
          iql_search attribute object_name schema_id t_get' t_date' t_stamp' s_iql
  = (Ok (VStr joined), emit (LoggerLog "Using memoized function.") s_iql).
Proof.
  intros Hlist Hjoined Hnd Hno Hlive. cbn zeta.
  unfold LAZYIQL, LAZYIQL_LIST, MEMOIZED_IQL, MEMOIZED_IQL_LIST.
  destruct (memoized_miss_stores JSON_stringify
              (positional (_LAZYIQL_LIST fetch_json encodeURIComponent StringToNumber))
              [iql_search; attribute; object_name; schema_id] t_get t_date t_stamp s
              (VStr joined) Hlist Hno Hnd)
    as (Hblob & Hnd' & Hentry).
  rewrite Hblob. cbn [memoize snd]. unfold initial_state. rewrite (Map_of_same _ Hnd').
  apply (memoized_truthy_hit JSON_stringify _ _ _ _ _ _ (mkEntry (VStr joined) t_stamp)).
  - exact Hentry.
  - cbn [expire_of _time]. lia.
  - cbn [value_of truthy]. apply negb_true_iff. now apply String.eqb_neq.
Qed.

Lemma LAZYIQL_returns_what_LAZYIQL_LIST_stored_witness :
  let s_list :=
    snd (LAZYIQL_LIST confused_server sample_encodeURIComponent sample_StringToNumber
           sample_stringify (VStr "All") (VStr "Name") (VStr "Server") (VStr "10")
           0 1 2 (initial_state None)) in
  let s_iql :=
    snd (memoize (AFun (positional (_LAZYIQL confused_server sample_encodeURIComponent
                                             sample_StringToNumber)))
           (cache_service s_list)) in
  _LAZYIQL confused_server sample_encodeURIComponent sample_StringToNumber
           (VStr "All") (VStr "Name") (VStr "Server") (VStr "10") = Ok (VStr "srv-1") /\
  fst (LAZYIQL confused_server sample_encodeURIComponent sample_StringToNumber
         sample_stringify (VStr "All") (VStr "Name") (VStr "Server") (VStr "10")
         500 501 502 s_iql) = Ok (VStr "srv-1;srv-2").
Proof.
  cbn zeta. split; [vm_compute; reflexivity|].
  rewrite (LAZYIQL_returns_what_LAZYIQL_LIST_stored
             confused_server sample_encodeURIComponent sample_StringToNumber
             sample_stringify (VStr "All") (VStr "Name") (VStr "Server") (VStr "10")
             0 1 2 500 501 502 (initial_state None) "srv-1;srv-2").
  - reflexivity.
  - vm_compute. reflexivity.
  - discriminate.
  - constructor.
  - exact I.
  - vm_compute. reflexivity.
Defined.

(** ** Further properties of the resolver *)

Lemma get_property_first (x : value) (rest : list value) :
  get_property (VArr (x :: rest)) "0" = Ok x.
Proof.
  change "0"%string with (string_of_nat 0).
  rewrite get_property_at; [reflexivity | cbn; lia].
Qed.

Lemma lookup_found (k : string) (v : value) (fields : list (string * value)) :
  lookup k fields = Some v -> In v (map snd fields).
Proof.
  induction fields as [|[k' v'] rest IH]; cbn; [discriminate|].
  destruct (String.eqb k k'); [intros [= ->]; now left | intros H; right; now apply IH].
Qed.

Lemma lookup_of_key (k : string) (fields : list (string * value)) :
  In k (map fst fields) -> exists v, lookup k fields = Some v.
Proof.
  induction fields as [|[k' v'] rest IH]; cbn; [tauto|].
  destruct (String.eqb k k') eqn:E; [now exists v'|].
  intros [->|Hin]; [now rewrite String.eqb_refl in E | now apply IH].
Qed.

Section InsightFurther.

Variable fetch_json : string -> result value.
Variable encodeURIComponent : string -> string.
Variable StringToNumber : string -> option Z.

Local Abbreviation loose_eq := (loose_eq StringToNumber).
Local Abbreviation find_object_type := (find_object_type StringToNumber).
Local Abbreviation find_attribute := (find_attribute StringToNumber).
Local Abbreviation scan_attributes := (scan_attributes StringToNumber).
Local Abbreviation scan_objects := (scan_objects StringToNumber).
Local Abbreviation matching_values := (matching_values StringToNumber).
Local Abbreviation insightRequest := (insightRequest fetch_json).
Local Abbreviation insightObjectsIql := (insightObjectsIql fetch_json encodeURIComponent).
Local Abbreviation getObjectTypeIdFromName :=
  (getObjectTypeIdFromName fetch_json StringToNumber).
Local Abbreviation getObjectTypeAttributeId :=
  (getObjectTypeAttributeId fetch_json StringToNumber).
Local Abbreviation getLazyIQL :=
  (getLazyIQL fetch_json encodeURIComponent StringToNumber).

(** Object types that are objects without the name are passed over. *)
Lemma find_object_type_skips (name : value) (before rest : list value) :
  Forall (fun o => exists fields, o = VObj fields /\
            forall m, lookup "name" fields = Some m -> loose_eq name m = false)
         before ->
  find_object_type name (before ++ rest) = find_object_type name rest.
Proof.
  induction 1 as [|o before (fields & -> & Hno) _ IH]; [reflexivity|].
  change ((VObj fields :: before) ++ rest) with (VObj fields :: (before ++ rest)).
  cbn [find_object_type has_property get_property result_bind].
  destruct (lookup "name" fields) as [m|] eqn:L; cbn [result_bind].
  - now rewrite (Hno m eq_refl).
  - exact IH.
Qed.

(** X10. [getObjectTypeIdFromName] returns the [id] of the first object
    type of the list whose name is [==] to the name asked for, or
    [undefined] when that object type has no [id]; object types before it
    that have another name or none are passed over, and those after it are
    not looked at. *)
Theorem getObjectTypeIdFromName_returns_the_first_match
        (name object_schema_id n : value) (before after : list value)
        (fields : list (string * value)) :
  insightRequest ("objectschema/" ++ ToString object_schema_id ++ "/objecttypes")%string
    = Ok (VArr (before ++ VObj fields :: after)) ->
  Forall (fun o => exists fs, o = VObj fs /\
            forall m, lookup "name" fs = Some m -> loose_eq name m = false)
         before ->
  lookup "name" fields = Some n ->
  loose_eq name n = true ->
  getObjectTypeIdFromName name object_schema_id
  = Ok (match lookup "id" fields with
        | Some id => id
        | None => VUndefined
        end).
Proof.
  intros Hdata Hbefore Hname Heq.
  unfold getObjectTypeIdFromName. rewrite Hdata. cbn [result_bind iterate].
  rewrite (find_object_type_skips _ _ _ Hbefore).
  cbn [find_object_type has_property get_property result_bind].
  rewrite Hname. cbn [result_bind]. rewrite Heq.
  now destruct (lookup "id" fields).
Qed.

(** X11. When no object type of the list has the name,
    [getObjectTypeIdFromName] returns [null]. *)
Theorem getObjectTypeIdFromName_returns_null_without_a_match
        (name object_schema_id : value) (object_types : list value) :
  insightRequest ("objectschema/" ++ ToString object_schema_id ++ "/objecttypes")%string
    = Ok (VArr object_types) ->
  Forall (fun o => exists fs, o = VObj fs /\
            forall m, lookup "name" fs = Some m -> loose_eq name m = false)
         object_types ->
  getObjectTypeIdFromName name object_schema_id = Ok VNull.
Proof.
  intros Hdata Hnone.
  unfold getObjectTypeIdFromName. rewrite Hdata. cbn [result_bind iterate].
  rewrite <- (app_nil_r object_types).
  now rewrite (find_object_type_skips _ _ _ Hnone).
Qed.

(** X12. A response to the object-type request that is an object, such
    as the error body of the server, is not iterable:
    [getObjectTypeIdFromName] throws a TypeError, and so do
    [getObjectTypeAttributeId] and [getLazyIQL], which call it first. *)
Theorem object_type_response_that_is_an_object_fails
        (iql_search attribute object_name object_schema_id : value)
        (body : list (string * value)) :
  insightRequest ("objectschema/" ++ ToString object_schema_id ++ "/objecttypes")%string
    = Ok (VObj body) ->
  getObjectTypeIdFromName object_name object_schema_id = Throw TypeError /\
  getObjectTypeAttributeId attribute object_name object_schema_id = Throw TypeError /\
  getLazyIQL iql_search attribute object_name object_schema_id = Throw TypeError.
Proof.
  intros Hdata.
  assert (H : getObjectTypeIdFromName object_name object_schema_id = Throw TypeError).
  { unfold getObjectTypeIdFromName. now rewrite Hdata. }
  split; [exact H|].
  assert (H' : getObjectTypeAttributeId attribute object_name object_schema_id
               = Throw TypeError).
  { unfold getObjectTypeAttributeId. now rewrite H. }
  split; [exact H'|].
  unfold getLazyIQL. now rewrite H'.
Qed.

(** X13. An element of the object-type list that is not an object, such
    as [null], makes [getObjectTypeIdFromName] throw a TypeError when the
    loop reaches it, that is, when no object type before it has the name. *)
Theorem object_type_that_is_not_an_object_fails
        (name object_schema_id element : value) (before after : list value) :
  insightRequest ("objectschema/" ++ ToString object_schema_id ++ "/objecttypes")%string
    = Ok (VArr (before ++ element :: after)) ->
  Forall (fun o => exists fs, o = VObj fs /\
            forall m, lookup "name" fs = Some m -> loose_eq name m = false)
         before ->
  (forall items, element <> VArr items) ->
  (forall fs, element <> VObj fs) ->
  getObjectTypeIdFromName name object_schema_id = Throw TypeError.
Proof.
  intros Hdata Hbefore Harr Hobj.
  unfold getObjectTypeIdFromName. rewrite Hdata. cbn [result_bind iterate].
  rewrite (find_object_type_skips _ _ _ Hbefore).
  cbn [find_object_type].
  destruct element; try reflexivity.
  - now contradiction (Harr items).
  - now contradiction (Hobj fields).
Qed.

(** The loop over the keys of an attribute list reaches the first item
    that has the name. *)
Lemma find_attribute_first (name n item : value) (before after : list value) :
  Forall (fun it => exists m, get_property it "name" = Ok m /\ loose_eq name m = false)
         before ->
  get_property item "name" = Ok n ->
  loose_eq name n = true ->
  find_attribute name (VArr (before ++ item :: after))
                 (for_in_keys (VArr (before ++ item :: after)))
  = get_property item "id".
Proof.
  intros Hbefore Hname Heq. cbn [for_in_keys].
  set (items := before ++ item :: after).
  assert (Hlen : (List.length before < List.length items)%nat).
  { subst items. rewrite length_app. cbn. lia. }
  assert (G : forall len start,
            (start <= List.length before < start + len)%nat ->
            (start + len <= List.length items)%nat ->
            find_attribute name (VArr items) (map string_of_nat (seq start len))
            = get_property item "id").
  { induction len as [|len IH]; intros start Hr Hb; [lia|].
    cbn [seq map].
    change (find_attribute name (VArr items)
              (string_of_nat start :: map string_of_nat (seq (S start) len)))
      with (try element <- get_property (VArr items) (string_of_nat start) ;
            try m <- get_property element "name" ;
            if loose_eq name m then get_property element "id"
            else find_attribute name (VArr items) (map string_of_nat (seq (S start) len))).
    rewrite get_property_at by lia. cbn [result_bind].
    destruct (Nat.eq_dec start (List.length before)) as [->|Hne].
    - subst items. rewrite nth_middle, Hname. cbn [result_bind]. now rewrite Heq.
    - subst items. rewrite app_nth1 by lia.
      rewrite Forall_forall in Hbefore.
      destruct (Hbefore (nth start before VUndefined)) as (m & Hm & Hneq).
      { apply nth_In. lia. }
      rewrite Hm. cbn [result_bind]. rewrite Hneq. apply IH; lia. }
  apply G; lia.
Qed.

(** X14. [getObjectTypeAttributeId] returns the [id] of the first item of
    the attribute list whose name is [==] to the name asked for; the items
    before it have other names, and those after it are not looked at. *)
Theorem getObjectTypeAttributeId_returns_the_first_match
        (name object_name object_schema_id object_type_id n item : value)
        (before after : list value) :
  getObjectTypeIdFromName object_name object_schema_id = Ok object_type_id ->
  insightRequest ("objecttype/" ++ ToString object_type_id ++ "/attributes")%string
    = Ok (VArr (before ++ item :: after)) ->
  Forall (fun it => exists m, get_property it "name" = Ok m /\ loose_eq name m = false)
         before ->
  get_property item "name" = Ok n ->
  loose_eq name n = true ->
  getObjectTypeAttributeId name object_name object_schema_id = get_property item "id".
Proof.
  intros Htype Hdata Hbefore Hname Heq.
  unfold getObjectTypeAttributeId. rewrite Htype. cbn [result_bind].
  rewrite Hdata. cbn [result_bind].
  now apply (find_attribute_first name n).
Qed.

(** The loop over the keys of an object finds nothing when none of its
    values has the name. *)
Lemma find_attribute_in_object (name : value) (body : list (string * value)) :
  Forall (fun v => exists m, get_property v "name" = Ok m /\ loose_eq name m = false)
         (map snd body) ->
  forall keys,
    (forall k, In k keys -> In k (map fst body)) ->
    find_attribute name (VObj body) keys = Ok VNull.
Proof.
  intros Hnone. induction keys as [|k keys IH]; intros Hkeys; [reflexivity|].
  destruct (lookup_of_key k body (Hkeys k (or_introl eq_refl))) as (v & Hv).
  rewrite Forall_forall in Hnone.
  destruct (Hnone v (lookup_found _ _ _ Hv)) as (m & Hm & Hneq).
  change (find_attribute name (VObj body) (k :: keys))
    with (try element <- get_property (VObj body) k ;
          try m <- get_property element "name" ;
          if loose_eq name m then get_property element "id"
          else find_attribute name (VObj body) keys).
  cbn [get_property]. rewrite Hv. cbn [result_bind]. rewrite Hm. cbn [result_bind].
  rewrite Hneq. apply IH. intros k' Hin. apply Hkeys. now right.
Qed.

(** X15. Unlike the object-type request, the attribute request may be
    answered by an object, such as the error body of the server: the
    [for .. in] loop goes through its properties, and when none of their
    values has the name, [getObjectTypeAttributeId] returns [null]
    without an exception. *)
Theorem attribute_response_that_is_an_object_gives_null
        (name object_name object_schema_id object_type_id : value)
        (body : list (string * value)) :
  getObjectTypeIdFromName object_name object_schema_id = Ok object_type_id ->
  insightRequest ("objecttype/" ++ ToString object_type_id ++ "/attributes")%string
    = Ok (VObj body) ->
  Forall (fun v => exists m, get_property v "name" = Ok m /\ loose_eq name m = false)
         (map snd body) ->
  getObjectTypeAttributeId name object_name object_schema_id = Ok VNull.
Proof.
  intros Htype Hdata Hnone.
  unfold getObjectTypeAttributeId. rewrite Htype. cbn [result_bind].
  rewrite Hdata. cbn [result_bind for_in_keys].
  apply (find_attribute_in_object name body Hnone). auto.
Qed.

Lemma matching_values_app (id : value) (xs ys : list value) :
  matching_values id (xs ++ ys) = matching_values id xs ++ matching_values id ys.
Proof. unfold matching_values. apply flat_map_app. Qed.

(** The inner loop appends the display values of the matching attributes,
    in order, when each matching attribute has an object as its first
    value. *)
Lemma scan_attributes_collects (id : value) (attributes : list value) :
  Forall (fun a => exists fields, a = VObj fields /\
            forall x, lookup "objectTypeAttributeId" fields = Some x ->
                      loose_eq id x = true ->
                      exists first rest,
                        lookup "objectAttributeValues" fields
                        = Some (VArr (VObj first :: rest)))
         attributes ->
  forall results,
    scan_attributes id attributes results = Ok (results ++ matching_values id attributes).
Proof.
  induction 1 as [|a rest (fields & -> & Hwf) _ IH]; intros results.
  - cbn. now rewrite app_nil_r.
  - change (VObj fields :: rest) with ([VObj fields] ++ rest) at 2.
    rewrite matching_values_app, app_assoc, <- IH.
    cbn [scan_attributes has_property get_property result_bind].
    unfold matching_values. cbn [flat_map]. rewrite app_nil_r.
    destruct (lookup "objectTypeAttributeId" fields) as [x|] eqn:L; cbn [result_bind].
    + destruct (loose_eq id x) eqn:E.
      * destruct (Hwf x eq_refl E) as (first & others & Hvals).
        unfold first_display_value. rewrite Hvals. cbn [result_bind].
        rewrite get_property_first. cbn [result_bind get_property].
        now destruct (lookup "displayValue" first).
      * now rewrite app_nil_r.
    + now rewrite app_nil_r.
Qed.

Lemma scan_objects_collects (id : value) (objects : list value)
      (attribute_lists : list (list value)) :
  Forall2 (fun o attributes => get_property o "attributes" = Ok (VArr attributes))
          objects attribute_lists ->
  Forall (fun a => exists fields, a = VObj fields /\
            forall x, lookup "objectTypeAttributeId" fields = Some x ->
                      loose_eq id x = true ->
                      exists first rest,
                        lookup "objectAttributeValues" fields
                        = Some (VArr (VObj first :: rest)))
         (List.concat attribute_lists) ->
  forall results,
    scan_objects id objects results
    = Ok (results ++ matching_values id (List.concat attribute_lists)).
Proof.
  induction 1 as [|o attributes objects lists Hattrs _ IH]; intros Hwf results.
  - cbn. now rewrite app_nil_r.
  - cbn [List.concat] in Hwf |- *. apply Forall_app in Hwf. destruct Hwf as [Hhere Hrest].
    cbn [scan_objects]. rewrite Hattrs. cbn [result_bind iterate].
    rewrite (scan_attributes_collects id attributes Hhere). cbn [result_bind].
    rewrite (IH Hrest). now rewrite matching_values_app, app_assoc.
Qed.

(** X16. On a search result whose objects carry attribute lists, with
    each matching attribute having an object as its first value,
    [getLazyIQL] returns one value for each attribute whose identifier is
    [==] to the resolved one: the [displayValue] of its first value, or
    [undefined] when that has none, in the order of the objects and of
    their attributes. *)
Theorem getLazyIQL_collects_the_first_display_values
        (iql_search attribute object_name object_schema_id id data : value)
        (objects : list value) (attribute_lists : list (list value)) :
  getObjectTypeAttributeId attribute object_name object_schema_id = Ok id ->
  insightObjectsIql iql_search = Ok data ->
  get_property data "objectEntries" = Ok (VArr objects) ->
  Forall2 (fun o attributes => get_property o "attributes" = Ok (VArr attributes))
          objects attribute_lists ->
  Forall (fun a => exists fields, a = VObj fields /\
            forall x, lookup "objectTypeAttributeId" fields = Some x ->
                      loose_eq id x = true ->
                      exists first rest,
                        lookup "objectAttributeValues" fields
                        = Some (VArr (VObj first :: rest)))
         (List.concat attribute_lists) ->
  getLazyIQL iql_search attribute object_name object_schema_id
  = Ok (matching_values id (List.concat attribute_lists)).
Proof.
  intros Hid Hsearch Hentries Hobjects Hwf.
  unfold getLazyIQL. rewrite Hid. cbn [result_bind].
  rewrite Hsearch. cbn [result_bind]. rewrite Hentries. cbn [result_bind iterate].
  now rewrite (scan_objects_collects id objects attribute_lists Hobjects Hwf).
Qed.

(** X17. A failed request is the failure of the resolution: the exception
    of the object-type request is the exception of [getLazyIQL], and so is
    the exception of the search request once the attribute is resolved. *)
Theorem request_failure_is_the_failure_of_getLazyIQL
        (iql_search attribute object_name object_schema_id : value) (e : error) :
  insightRequest ("objectschema/" ++ ToString object_schema_id ++ "/objecttypes")%string
    = Throw e \/
  ((exists id, getObjectTypeAttributeId attribute object_name object_schema_id = Ok id) /\
   insightObjectsIql iql_search = Throw e) ->
  getLazyIQL iql_search attribute object_name object_schema_id = Throw e.
Proof.
  intros [Hfirst|[(id & Hid) Hsearch]]; unfold getLazyIQL.
  - unfold getObjectTypeAttributeId, getObjectTypeIdFromName. now rewrite Hfirst.
  - rewrite Hid. cbn [result_bind]. now rewrite Hsearch.
Qed.

End InsightFurther.

Lemma loose_eq_undefined (StringToNumber : string -> option Z) (v : value) :
  loose_eq StringToNumber VUndefined v = nullish v.
Proof. now destruct v. Qed.

(** What [getLazyIQL] does when called as [_LAZYIQL] calls it, on a server
    whose object types for the schema [undefined] all have proper names. *)
Lemma getLazyIQL_of_undefined
      (fetch_json : string -> result value) (encodeURIComponent : string -> string)
      (StringToNumber : string -> option Z)
      (iql_search attribute : value) (object_types : list value) :
  fetch_json "objectschema/undefined/objecttypes" = Ok (VArr object_types) ->
  Forall (fun t => exists fs, t = VObj fs /\
            forall m, lookup "name" fs = Some m -> nullish m = false)
         object_types ->
  getLazyIQL fetch_json encodeURIComponent StringToNumber
             iql_search attribute VUndefined VUndefined
  = (try data <- fetch_json "objecttype/null/attributes" ;
     try id <- find_attribute StringToNumber attribute data (for_in_keys data) ;
     try found <- fetch_json ("iql/objects?iql=" ++ encodeURIComponent (ToString iql_search))%string ;
     try object_entries <- get_property found "objectEntries" ;
     try objects <- iterate object_entries ;
     scan_objects StringToNumber id objects []).
Proof.
  intros Htypes Hnamed.
  assert (Hnull : getObjectTypeIdFromName fetch_json StringToNumber VUndefined VUndefined
                  = Ok VNull).
  { unfold getObjectTypeIdFromName, insightRequest.
    change (base_url ++ "objectschema/" ++ ToString VUndefined ++ "/objecttypes")%string
      with "objectschema/undefined/objecttypes"%string.
    rewrite Htypes. cbn [result_bind iterate].
    rewrite <- (app_nil_r object_types).
    rewrite (find_object_type_skips StringToNumber VUndefined object_types []);
      [reflexivity|].
    apply Forall_impl with (2 := Hnamed).
    intros t (fs & -> & Hm). exists fs. split; [reflexivity|].
    intros m Hl. rewrite loose_eq_undefined. now apply Hm. }
  unfold getLazyIQL, getObjectTypeAttributeId. rewrite Hnull.
  unfold insightObjectsIql, insightRequest. cbn [result_bind].
  change (base_url ++ "objecttype/" ++ ToString VNull ++ "/attributes")%string
    with "objecttype/null/attributes"%string.
  destruct (fetch_json "objecttype/null/attributes") as [data|e]; [|reflexivity].
  cbn [result_bind].
  destruct (find_attribute StringToNumber attribute data (for_in_keys data));
    reflexivity.
Qed.

(** X18. [_LAZYIQL] and [_LAZYIQL_LIST] never ask for the schema and the
    object type of their caller. On a server whose object types for the
    schema [undefined] all have proper names, their results are decided by
    the answers to three requests: the object types of the schema
    [undefined], the attributes of the object type [null], and the search.
    Two servers that agree on these give the same results, for any object
    names and schema identifiers. *)
Theorem LAZYIQL_is_decided_by_three_requests
        (fetch_json fetch_json' : string -> result value)
        (encodeURIComponent : string -> string) (StringToNumber : string -> option Z)
        (iql_search attribute object_name schema_id object_name' schema_id' : value)
        (object_types : list value) :
  fetch_json "objectschema/undefined/objecttypes" = Ok (VArr object_types) ->
  Forall (fun t => exists fs, t = VObj fs /\
            forall m, lookup "name" fs = Some m -> nullish m = false)
         object_types ->
  fetch_json' "objectschema/undefined/objecttypes"
    = fetch_json "objectschema/undefined/objecttypes" ->
  fetch_json' "objecttype/null/attributes" = fetch_json "objecttype/null/attributes" ->
  fetch_json' ("iql/objects?iql=" ++ encodeURIComponent (ToString iql_search))%string
    = fetch_json ("iql/objects?iql=" ++ encodeURIComponent (ToString iql_search))%string ->
  _LAZYIQL fetch_json' encodeURIComponent StringToNumber
           iql_search attribute object_name' schema_id'
  = _LAZYIQL fetch_json encodeURIComponent StringToNumber
             iql_search attribute object_name schema_id /\
  _LAZYIQL_LIST fetch_json' encodeURIComponent StringToNumber
                iql_search attribute object_name' schema_id'
  = _LAZYIQL_LIST fetch_json encodeURIComponent StringToNumber
                  iql_search attribute object_name schema_id.
Proof.
  intros Htypes Hnamed Hsame1 Hsame2 Hsame3.
  assert (Htypes' : fetch_json' "objectschema/undefined/objecttypes" = Ok (VArr object_types))
    by now rewrite Hsame1.
  unfold _LAZYIQL, _LAZYIQL_LIST.
  rewrite (getLazyIQL_of_undefined fetch_json' _ _ _ _ _ Htypes' Hnamed).
  rewrite (getLazyIQL_of_undefined fetch_json _ _ _ _ _ Htypes Hnamed).
  rewrite Hsame2, Hsame3. split; reflexivity.
Qed.

Lemma LAZYIQL_is_decided_by_three_requests_witness :
  let named := fun url => if String.eqb url "objectschema/undefined/objecttypes"
                          then Ok object_types_10 else confused_server url in
  let other := fun url => if String.eqb url "objectschema/10/objecttypes"
                          then Ok error_body else named url in
  _LAZYIQL other sample_encodeURIComponent sample_StringToNumber
           (VStr "Server") (VStr "Owner") (VStr "Laptop") (VStr "99")
  = _LAZYIQL named sample_encodeURIComponent sample_StringToNumber
             (VStr "Server") (VStr "Owner") (VStr "Server") (VStr "10").
Proof.
  cbn zeta.
  apply (LAZYIQL_is_decided_by_three_requests
           (fun url => if String.eqb url "objectschema/undefined/objecttypes"
                       then Ok object_types_10 else confused_server url)
           (fun url => if String.eqb url "objectschema/10/objecttypes"
                       then Ok error_body
                       else if String.eqb url "objectschema/undefined/objecttypes"
                            then Ok object_types_10 else confused_server url)
           sample_encodeURIComponent sample_StringToNumber
           (VStr "Server") (VStr "Owner") (VStr "Server") (VStr "10")
           (VStr "Laptop") (VStr "99")
           [VObj [("id", VNum 1); ("name", VStr "Laptop")];
            VObj [("id", VNum 2); ("name", VStr "Server")]]).
  - reflexivity.
  - repeat constructor; eexists; (split; [reflexivity|]); intros m [= <-]; reflexivity.
  - reflexivity.
  - reflexivity.
  - reflexivity.
Defined.

(** X19. When the server answers the request for the object types of the
    schema [undefined] with an object, such as its error body, every call
    of [LAZYIQL] and [LAZYIQL_LIST] that finds nothing truthy in the cache
    throws a TypeError, whatever the arguments. *)
Theorem LAZYIQL_fails_when_the_schema_undefined_is_refused
        (fetch_json : string -> result value) (encodeURIComponent : string -> string)
        (StringToNumber : string -> option Z) (JSON_stringify : list value -> string)
        (iql_search attribute object_name schema_id : value)
        (t_get t_date t_stamp : Z) (s : state) (body : list (string * value)) :
  fetch_json "objectschema/undefined/objecttypes" = Ok (VObj body) ->
  no_truthy_entry (JSON_stringify [iql_search; attribute; object_name; schema_id]) s ->
  fst (LAZYIQL fetch_json encodeURIComponent StringToNumber JSON_stringify
         iql_search attribute object_name schema_id t_get t_date t_stamp s)
    = Throw TypeError /\
  fst (LAZYIQL_LIST fetch_json encodeURIComponent StringToNumber JSON_stringify
         iql_search attribute object_name schema_id t_get t_date t_stamp s)
    = Throw TypeError.
Proof.
  intros Hbody Hno.
  assert (Hfail : getLazyIQL fetch_json encodeURIComponent StringToNumber
                             iql_search attribute VUndefined VUndefined = Throw TypeError).
  { unfold getLazyIQL, getObjectTypeAttributeId, getObjectTypeIdFromName, insightRequest.
    change (base_url ++ "objectschema/" ++ ToString VUndefined ++ "/objecttypes")%string
      with "objectschema/undefined/objecttypes"%string.
    now rewrite Hbody. }
  unfold LAZYIQL, LAZYIQL_LIST, MEMOIZED_IQL, MEMOIZED_IQL_LIST.
  rewrite !memoized_unfold.
  destruct (get_outcome (JSON_stringify [iql_search; attribute; object_name; schema_id])
              t_get s) as (r & s1 & Hg & _).
  rewrite Hg, (get_finds_nothing_truthy _ _ _ _ _ Hno Hg).
  unfold positional, _LAZYIQL, _LAZYIQL_LIST. cbn [nth]. rewrite Hfail.
  split; reflexivity.
Qed.

Lemma LAZYIQL_fails_when_the_schema_undefined_is_refused_witness :
  fst (LAZYIQL sample_server sample_encodeURIComponent sample_StringToNumber sample_stringify
         (VStr "Unowned") (VStr "Name") (VStr "Laptop") (VStr "10") 0 1 2 stale_state)
    = Throw TypeError /\
  fst (LAZYIQL_LIST sample_server sample_encodeURIComponent sample_StringToNumber
         sample_stringify
         (VStr "Unowned") (VStr "Name") (VStr "Laptop") (VStr "10") 0 1 2 stale_state)
    = Throw TypeError.
Proof.
  apply (LAZYIQL_fails_when_the_schema_undefined_is_refused
           sample_server sample_encodeURIComponent sample_StringToNumber sample_stringify
           (VStr "Unowned") (VStr "Name") (VStr "Laptop") (VStr "10") 0 1 2 stale_state
           [("errorMessages", VArr [VStr "Not found"]); ("errors", VObj [])]).
  - reflexivity.
  - vm_compute. exact I.
Defined.

Lemma getObjectTypeIdFromName_returns_the_first_match_witness :
  getObjectTypeIdFromName sample_server sample_StringToNumber (VStr "Server") (VStr "10")
  = Ok (VNum 2).
Proof.
  apply (getObjectTypeIdFromName_returns_the_first_match
           sample_server sample_StringToNumber (VStr "Server") (VStr "10") (VStr "Server")
           [VObj [("id", VNum 1); ("name", VStr "Laptop")]] []
           [("id", VNum 2); ("name", VStr "Server")]).
  - reflexivity.
  - repeat constructor. eexists. split; [reflexivity|]. intros m [= <-]. reflexivity.
  - reflexivity.
  - reflexivity.
Defined.

Lemma getObjectTypeIdFromName_returns_null_without_a_match_witness :
  getObjectTypeIdFromName sample_server sample_StringToNumber (VStr "Printer") (VStr "10")
  = Ok VNull.
Proof.
  apply (getObjectTypeIdFromName_returns_null_without_a_match
           sample_server sample_StringToNumber (VStr "Printer") (VStr "10")
           [VObj [("id", VNum 1); ("name", VStr "Laptop")];
            VObj [("id", VNum 2); ("name", VStr "Server")]]).
  - reflexivity.
  - repeat constructor; eexists; (split; [reflexivity|]); intros m [= <-]; reflexivity.
Defined.

Lemma object_type_response_that_is_an_object_fails_witness :
  getObjectTypeIdFromName sample_server sample_StringToNumber (VStr "Server") (VStr "11")
    = Throw TypeError /\
  getObjectTypeAttributeId sample_server sample_StringToNumber
    (VStr "Owner") (VStr "Server") (VStr "11") = Throw TypeError /\
  getLazyIQL sample_server sample_encodeURIComponent sample_StringToNumber
    (VStr "Server") (VStr "Owner") (VStr "Server") (VStr "11") = Throw TypeError.
Proof.
  apply (object_type_response_that_is_an_object_fails
           sample_server sample_encodeURIComponent sample_StringToNumber
           (VStr "Server") (VStr "Owner") (VStr "Server") (VStr "11")
           [("errorMessages", VArr [VStr "Not found"]); ("errors", VObj [])]).
  reflexivity.
Defined.

Lemma object_type_that_is_not_an_object_fails_witness :
  getObjectTypeIdFromName
    (fun _ => Ok (VArr [VObj [("id", VNum 1); ("name", VStr "Laptop")]; VNull]))
    sample_StringToNumber (VStr "Server") (VStr "10")
  = Throw TypeError.
Proof.
  apply (object_type_that_is_not_an_object_fails
           (fun _ => Ok (VArr [VObj [("id", VNum 1); ("name", VStr "Laptop")]; VNull]))
           sample_StringToNumber (VStr "Server") (VStr "10") VNull
           [VObj [("id", VNum 1); ("name", VStr "Laptop")]] []).
  - reflexivity.
  - repeat constructor. eexists. split; [reflexivity|]. intros m [= <-]. reflexivity.
  - discriminate.
  - discriminate.
Defined.

Lemma getObjectTypeAttributeId_returns_the_first_match_witness :
  getObjectTypeAttributeId sample_server sample_StringToNumber
    (VStr "Owner") (VStr "Server") (VStr "10") = Ok (VNum 8).
Proof.
  apply (getObjectTypeAttributeId_returns_the_first_match
           sample_server sample_StringToNumber
           (VStr "Owner") (VStr "Server") (VStr "10") (VNum 2) (VStr "Owner")
           (VObj [("id", VNum 8); ("name", VStr "Owner")])
           [VObj [("id", VNum 7); ("name", VStr "Name")]] []).
  - reflexivity.
  - reflexivity.
  - repeat constructor. eexists. split; reflexivity.
  - reflexivity.
  - reflexivity.
Defined.

Lemma attribute_response_that_is_an_object_gives_null_witness :
  getObjectTypeAttributeId sample_server sample_StringToNumber
    (VStr "Owner") (VStr "Printer") (VStr "10") = Ok VNull.
Proof.
  apply (attribute_response_that_is_an_object_gives_null
           sample_server sample_StringToNumber
           (VStr "Owner") (VStr "Printer") (VStr "10") VNull
           [("errorMessages", VArr [VStr "Not found"]); ("errors", VObj [])]).
  - reflexivity.
  - reflexivity.
  - repeat constructor; eexists; split; reflexivity.
Defined.

Lemma getLazyIQL_collects_the_first_display_values_witness :
  getLazyIQL sample_server sample_encodeURIComponent sample_StringToNumber
    (VStr "Server") (VStr "Owner") (VStr "Server") (VStr "10") = Ok [VStr "Alice"].
Proof.
  apply (getLazyIQL_collects_the_first_display_values
           sample_server sample_encodeURIComponent sample_StringToNumber
           (VStr "Server") (VStr "Owner") (VStr "Server") (VStr "10")
           (VNum 8) search_servers
           [VObj [("attributes",
                   VArr [VObj [("objectTypeAttributeId", VNum 7);
                               ("objectAttributeValues",
                                VArr [VObj [("displayValue", VStr "srv-1")]])];
                         VObj [("objectTypeAttributeId", VNum 8);
                               ("objectAttributeValues",
                                VArr [VObj [("displayValue", VStr "Alice")]])]])]]
           [[VObj [("objectTypeAttributeId", VNum 7);
                   ("objectAttributeValues", VArr [VObj [("displayValue", VStr "srv-1")]])];
             VObj [("objectTypeAttributeId", VNum 8);
                   ("objectAttributeValues", VArr [VObj [("displayValue", VStr "Alice")]])]]]).
  - reflexivity.
  - reflexivity.
  - reflexivity.
  - repeat constructor.
  - repeat constructor; eexists; (split; [reflexivity|]); intros x [= <-] _;
      eexists _, _; reflexivity.
Defined.

Lemma request_failure_is_the_failure_of_getLazyIQL_witness :
  getLazyIQL failing_server sample_encodeURIComponent sample_StringToNumber
    (VStr "Server") (VStr "Owner") (VStr "Server") (VStr "10")
  = Throw (HostError "Address unavailable").
Proof.
  apply (request_failure_is_the_failure_of_getLazyIQL
           failing_server sample_encodeURIComponent sample_StringToNumber
           (VStr "Server") (VStr "Owner") (VStr "Server") (VStr "10")
           (HostError "Address unavailable")).
  left. reflexivity.
Defined.
